(** * collective_profiler: the post-mortem analysis tools, embedded in Rocq

    The development follows the sources of the repository:
    - [Profiler]  : package [profiler] (pattern table, statistics, report,
                    validation of the counters);
    - [Format]    : package [format] (ordered view of an int map);
    - [Logger]    : the C logger of the capture library (rank-list notation);
    - [Notation]  : package [notation], the codec of the rank-list notation
                    (its sources are missing: modelled from the
                    specification);
    - [Grouping]  : the grouping engine exercised by [grouping_test.c] (its
                    sources are missing: modelled from the specification);
    - [Scale]     : package [scale] (rescaling of float maps).

    Go's [int] is a 64-bit two's complement integer: it is a [Z] here and
    every arithmetic operation that may overflow is followed by [wrap].
    Go's [map[int]int] is a [gmap Z Z]; a Go string is a [string]. *)

From Stdlib Require Import ZArith String Ascii List Lia Floats Sorted.
From stdpp Require Import base option list gmap strings pretty.

Local Open Scope Z_scope.

(** ** Machine integers *)

Definition int_min : Z := - 2 ^ 63.
Definition int_max : Z := 2 ^ 63 - 1.

(** Two's complement wrap-around of a 64-bit signed integer. *)
Definition wrap (z : Z) : Z := (z + 2 ^ 63) mod 2 ^ 64 - 2 ^ 63.

Definition in_int (z : Z) : Prop := int_min <= z <= int_max.

(** Go's [error] value: [None] is [nil], [Some msg] an error whose
    [Error()] text is [msg]. *)
Definition error : Type := option string.

(** ** The functions of Go's standard library the tools call *)

(** The line feed, Go's ["\n"]. *)
Definition nl : string := String (ascii_of_nat 10) EmptyString.

Module Strings.

(** [strings.HasPrefix]. *)
Definition HasPrefix (s prefix : string) : bool := String.prefix prefix s.

Definition in_cutset (c : ascii) (cutset : string) : bool :=
  existsb (Ascii.eqb c) (list_ascii_of_string cutset).

(** [strings.TrimRight]: the trailing characters of [s] that belong to
    [cutset] are removed. *)
Fixpoint TrimRight (s cutset : string) : string :=
  match s with
  | EmptyString => EmptyString
  | String c s' =>
      match TrimRight s' cutset with
      | EmptyString => if in_cutset c cutset then EmptyString else String c EmptyString
      | t => String c t
      end
  end.

(** [strings.TrimLeft]: the leading characters of [s] that belong to
    [cutset] are removed. *)
Fixpoint TrimLeft (s cutset : string) : string :=
  match s with
  | EmptyString => EmptyString
  | String c s' => if in_cutset c cutset then TrimLeft s' cutset else s
  end.

(** [strings.ReplaceAll] for a non-empty [old]: the occurrences are found
    from left to right and do not overlap.  [skip] counts the characters of
    the current occurrence still to be dropped. *)
Fixpoint ReplaceAll_from (skip : nat) (s old new : string) : string :=
  match s with
  | EmptyString => EmptyString
  | String c s' =>
      match skip with
      | S k => ReplaceAll_from k s' old new
      | O =>
          if String.prefix old s
          then new +:+ ReplaceAll_from (String.length old - 1) s' old new
          else String c (ReplaceAll_from 0 s' old new)
      end
  end.

Definition ReplaceAll (s old new : string) : string := ReplaceAll_from 0 s old new.

(** [strings.Split] for a non-empty [sep]: [cur] is the piece being
    read. *)
Fixpoint Split_from (skip : nat) (cur s sep : string) : list string :=
  match s with
  | EmptyString => [cur]
  | String c s' =>
      match skip with
      | S k => Split_from k cur s' sep
      | O =>
          if String.prefix sep s
          then cur :: Split_from (String.length sep - 1) EmptyString s' sep
          else Split_from 0 (cur +:+ String c EmptyString) s' sep
      end
  end.

Definition Split (s sep : string) : list string := Split_from 0 EmptyString s sep.

End Strings.

Module Strconv.

(** [strconv.Itoa]. *)
Definition Itoa (z : Z) : string := pretty z.

Definition digit_of (c : ascii) : option Z :=
  let n := Z.of_N (N_of_ascii c) in
  if (48 <=? n) && (n <=? 57) then Some (n - 48) else None.

Fixpoint digits_value (acc : Z) (s : string) : option Z :=
  match s with
  | EmptyString => Some acc
  | String c s' =>
      match digit_of c with
      | Some d => digits_value (acc * 10 + d) s'
      | None => None
      end
  end.

(** The double quote that surrounds the text in the messages of [Atoi]. *)
Definition dquote : string := String (ascii_of_nat 34) EmptyString.

Definition syntax_error (s : string) : string :=
  "strconv.Atoi: parsing " +:+ dquote +:+ s +:+ dquote +:+ ": invalid syntax".

Definition range_error (s : string) : string :=
  "strconv.Atoi: parsing " +:+ dquote +:+ s +:+ dquote +:+ ": value out of range".

(** [strconv.Atoi]: an optional sign, then decimal digits, at least one;
    the value has to fit a 64-bit [int]. *)
Definition Atoi (s : string) : Z + string :=
  let '(negative, body) :=
    match s with
    | String "-"%char r => (true, r)
    | String "+"%char r => (false, r)
    | _ => (false, s)
    end in
  match body with
  | EmptyString => inr (syntax_error s)
  | _ =>
      match digits_value 0 body with
      | None => inr (syntax_error s)
      | Some n =>
          let v := if negative then - n else n in
          if (int_min <=? v) && (v <=? int_max) then inl v else inr (range_error s)
      end
  end.

End Strconv.

Module Filepath.

Definition is_separator (c : ascii) : bool := Ascii.eqb c "/"%char.

(** What follows the last separator of [path]; [cur] is the element being
    read. *)
Fixpoint last_element_from (cur path : string) : string :=
  match path with
  | EmptyString => cur
  | String c path' =>
      if is_separator c then last_element_from EmptyString path'
      else last_element_from (cur +:+ String c EmptyString) path'
  end.

(** [filepath.Base] on Unix: the trailing separators are removed, the last
    element is kept; ["."] for the empty path and ["/"] for a path made of
    separators only. *)
Definition Base (path : string) : string :=
  match path with
  | EmptyString => "."
  | _ =>
      match last_element_from EmptyString (Strings.TrimRight path "/") with
      | EmptyString => "/"
      | base => base
      end
  end.

End Filepath.

(** ** Package [datafilereader]: what package [profiler] uses of it *)

Module Datafilereader.

(** Modelled from the spec: [datafilereader.CompareCallPatterns] is not part
    of the sources at hand.  Section 3 of the specification: equality
    requires identical key sets and identical values; a key present with
    value 0 is not equivalent to the key being absent.  This is equality of
    finite maps. *)
Definition CompareCallPatterns (p1 p2 : gmap Z Z) : bool := bool_decide (p1 = p2).

(** The patterns of one call, [callInfo.Patterns]. *)
Record CallPatterns := mkCallPatterns {
  SendPatterns : gmap Z Z;
  RecvPatterns : gmap Z Z
}.

(** The result of [LookupCall]; the fields are the ones [ParseCountFiles]
    reads. *)
Record CallInfo := mkCallInfo {
  SendSmallMsgs : Z;
  SendSmallNotZeroMsgs : Z;
  SendLargeMsgs : Z;
  SendDatatypeSize : Z;
  RecvDatatypeSize : Z;
  CommSize : Z;
  SendMin : Z;
  RecvMin : Z;
  SendMax : Z;
  RecvMax : Z;
  SendNotZeroMin : Z;
  RecvNotZeroMin : Z;
  TotalSendZeroCounts : Z;
  TotalRecvZeroCounts : Z;
  Patterns : CallPatterns
}.

End Datafilereader.

(** ** Package [profiler] *)

Module Profiler.

Import Datafilereader(CompareCallPatterns).

(** *** The pattern table ([CallPattern], [GlobalPatterns], [addPattern]) *)

Record CallPattern := mkCallPattern {
  Send : gmap Z Z;
  Recv : gmap Z Z;
  Count : Z;
  Calls : list Z
}.

(** [GlobalPatterns] holds two slices of pointers, [[]*CallPattern]: the
    same object can be reached from both slices.  A pointer is an address
    in a store of [CallPattern] objects; [new(CallPattern)] allocates at the
    end of the store. *)
Abbreviation ptr := nat (only parsing).
Abbreviation store := (list CallPattern) (only parsing).

Record GlobalPatterns := mkGlobalPatterns {
  AllPatterns : list ptr;
  OneToN : list ptr
}.

(** The zero value of [GlobalPatterns]: two nil slices. *)
Definition noPatterns : GlobalPatterns := mkGlobalPatterns [] [].

Definition same_signature (x : CallPattern) (s r : gmap Z Z) : bool :=
  CompareCallPatterns (Send x) s && CompareCallPatterns (Recv x) r.

(** The first loop of [addPattern].  The outer [option] is the run-time
    panic of a nil (or dangling) pointer dereference; the inner one tells
    whether the early [return nil] was taken ([Some] of the updated store)
    or the loop ran to its end ([None]). *)
Fixpoint addPattern_scan (h : store) (ps : list ptr) (callNum : Z)
    (sendPatterns recvPatterns : gmap Z Z) : option (option store) :=
  match ps with
  | [] => Some None
  | p :: ps' =>
      match h !! p with
      | None => None
      | Some x =>
          if same_signature x sendPatterns recvPatterns
          then Some (Some (<[p := mkCallPattern (Send x) (Recv x)
                                    (wrap (Count x + 1))
                                    (Calls x ++ [callNum])]> h))
          else addPattern_scan h ps' callNum sendPatterns recvPatterns
      end
  end.

(** The test of the second loop: [sendTo > n*100], in 64-bit arithmetic. *)
Definition is_one_to_n (kv : Z * Z) : bool := wrap (kv.2 * 100) <? kv.1.

(** The second loop of [addPattern], over the pairs of [sendPatterns] in
    the order [range] produces them. *)
Definition detect_one_to_n (new_cp : ptr) (pairs : list (Z * Z))
    (oneToN : list ptr) : list ptr :=
  foldl (fun acc kv => if is_one_to_n kv then acc ++ [new_cp] else acc)
        oneToN pairs.

Definition addPattern (h : store) (g : GlobalPatterns) (callNum : Z)
    (sendPatterns recvPatterns : gmap Z Z)
    : option (store * GlobalPatterns * error) :=
  match addPattern_scan h (AllPatterns g) callNum sendPatterns recvPatterns with
  | None => None
  | Some (Some h') => Some (h', g, None)
  | Some None =>
      let new_cp : ptr := length h in
      let h' := h ++ [mkCallPattern sendPatterns recvPatterns 1 [callNum]] in
      Some (h',
            mkGlobalPatterns
              (AllPatterns g ++ [new_cp])
              (detect_one_to_n new_cp (map_to_list sendPatterns) (OneToN g)),
            None)
  end.

(** Every pointer of the table designates an allocated object. *)
Definition wf (h : store) (g : GlobalPatterns) : Prop :=
  Forall (fun p => (p < length h)%nat) (AllPatterns g) /\
  Forall (fun p => (p < length h)%nat) (OneToN g).

(** The entry the linear scan stops at, if any. *)
Fixpoint first_match (h : store) (ps : list ptr) (s r : gmap Z Z) : option ptr :=
  match ps with
  | [] => None
  | p :: ps' =>
      match h !! p with
      | Some x => if same_signature x s r then Some p else first_match h ps' s r
      | None => first_match h ps' s r
      end
  end.

(** The pattern a record ends up in: the matched entry, or the new one. *)
Definition resulting_pattern (h : store) (g : GlobalPatterns)
    (s r : gmap Z Z) : ptr :=
  default (length h) (first_match h (AllPatterns g) s r).

(** *** The statistics ([CountStats], [ParseCountFiles]) *)

Record CountStats := mkCountStats {
  NumSendSmallMsgs : Z;
  NumSendLargeMsgs : Z;
  SizeThreshold : Z;
  NumSendSmallNotZeroMsgs : Z;
  CommSizes : gmap Z Z;
  DatatypesSend : gmap Z Z;
  DatatypesRecv : gmap Z Z;
  CallSendSparsity : gmap Z Z;
  CallRecvSparsity : gmap Z Z;
  SendMins : gmap Z Z;
  RecvMins : gmap Z Z;
  SendMaxs : gmap Z Z;
  RecvMaxs : gmap Z Z;
  SendNotZeroMins : gmap Z Z;
  RecvNotZeroMins : gmap Z Z;
  Patterns : GlobalPatterns
}.

(** [newCountStats]: every map is made empty; [SizeThreshold] and
    [Patterns] keep their zero value. *)
Definition newCountStats : CountStats :=
  mkCountStats 0 0 0 0 ∅ ∅ ∅ ∅ ∅ ∅ ∅ ∅ ∅ ∅ ∅ noPatterns.

(** The statement
    [if _, ok := probe[k]; ok { target[k]++ } else { target[k] = 1 }].
    [target[k]++] on a missing key starts from the zero value. *)
Definition count_key (probe target : gmap Z Z) (k : Z) : gmap Z Z :=
  match probe !! k with
  | Some _ => <[k := wrap (default 0 (target !! k) + 1)]> target
  | None => <[k := 1]> target
  end.

(** The body of the loop of [ParseCountFiles] up to the call of
    [addPattern]: the statements in source order.  The two statements on the
    minima excluding zero test [SendNotZeroMins] / [RecvNotZeroMins] and
    write [SendMins] / [RecvMins]. *)
Definition accumulate (cs : CountStats) (callInfo : Datafilereader.CallInfo)
    : CountStats :=
  let ci := callInfo in
  let numSendSmallMsgs :=
    wrap (NumSendSmallMsgs cs + Datafilereader.SendSmallMsgs ci) in
  let numSendSmallNotZeroMsgs :=
    wrap (NumSendSmallNotZeroMsgs cs + Datafilereader.SendSmallNotZeroMsgs ci) in
  let numSendLargeMsgs :=
    wrap (NumSendLargeMsgs cs + Datafilereader.SendLargeMsgs ci) in
  let datatypesSend :=
    count_key (DatatypesSend cs) (DatatypesSend cs) (Datafilereader.SendDatatypeSize ci) in
  let datatypesRecv :=
    count_key (DatatypesRecv cs) (DatatypesRecv cs) (Datafilereader.RecvDatatypeSize ci) in
  let commSizes :=
    count_key (CommSizes cs) (CommSizes cs) (Datafilereader.CommSize ci) in
  let sendMins :=
    count_key (SendMins cs) (SendMins cs) (Datafilereader.SendMin ci) in
  let recvMins :=
    count_key (RecvMins cs) (RecvMins cs) (Datafilereader.RecvMin ci) in
  let sendMaxs :=
    count_key (SendMaxs cs) (SendMaxs cs) (Datafilereader.SendMax ci) in
  let recvMaxs :=
    count_key (RecvMaxs cs) (RecvMaxs cs) (Datafilereader.RecvMax ci) in
  let sendMins' :=
    count_key (SendNotZeroMins cs) sendMins (Datafilereader.SendNotZeroMin ci) in
  let recvMins' :=
    count_key (RecvNotZeroMins cs) recvMins (Datafilereader.RecvNotZeroMin ci) in
  let callSendSparsity :=
    count_key (CallSendSparsity cs) (CallSendSparsity cs)
      (Datafilereader.TotalSendZeroCounts ci) in
  let callRecvSparsity :=
    count_key (CallRecvSparsity cs) (CallRecvSparsity cs)
      (Datafilereader.TotalRecvZeroCounts ci) in
  mkCountStats numSendSmallMsgs numSendLargeMsgs (SizeThreshold cs)
    numSendSmallNotZeroMsgs commSizes datatypesSend datatypesRecv
    callSendSparsity callRecvSparsity sendMins' recvMins' sendMaxs recvMaxs
    (SendNotZeroMins cs) (RecvNotZeroMins cs) (Patterns cs).

Definition set_Patterns (cs : CountStats) (g : GlobalPatterns) : CountStats :=
  mkCountStats (NumSendSmallMsgs cs) (NumSendLargeMsgs cs) (SizeThreshold cs)
    (NumSendSmallNotZeroMsgs cs) (CommSizes cs) (DatatypesSend cs)
    (DatatypesRecv cs) (CallSendSparsity cs) (CallRecvSparsity cs)
    (SendMins cs) (RecvMins cs) (SendMaxs cs) (RecvMaxs cs)
    (SendNotZeroMins cs) (RecvNotZeroMins cs) g.

Section ParseCountFiles.

(** [datafilereader.LookupCall] reads the two count files; it is not part of
    the sources at hand and is a parameter: its result for a call number is
    a [CallInfo] or an error. *)
Variable LookupCall : string -> string -> Z -> Z -> Datafilereader.CallInfo + string.

Variables (sendCountsFile recvCountsFile : string) (sizeThreshold : Z).

(** The loop [for i := 0; i < numCalls; i++], with [n] iterations left. *)
Fixpoint ParseCountFiles_loop (n : nat) (i : Z) (h : store) (cs : CountStats)
    : option (store * CountStats * error) :=
  match n with
  | O => Some (h, cs, None)
  | S n' =>
      match LookupCall sendCountsFile recvCountsFile i sizeThreshold with
      | inr err => Some (h, cs, Some err)
      | inl callInfo =>
          let cs1 := accumulate cs callInfo in
          match addPattern h (Patterns cs1) i
                  (Datafilereader.SendPatterns (Datafilereader.Patterns callInfo))
                  (Datafilereader.RecvPatterns (Datafilereader.Patterns callInfo)) with
          | None => None
          | Some (h', g', Some err) => Some (h', set_Patterns cs1 g', Some err)
          | Some (h', g', None) =>
              ParseCountFiles_loop n' (i + 1) h' (set_Patterns cs1 g')
          end
      end
  end.

Definition ParseCountFiles (numCalls : Z) : option (store * CountStats * error) :=
  ParseCountFiles_loop (Z.to_nat numCalls) 0 [] newCountStats.

End ParseCountFiles.

(** *** The report ([writeCountStatsToFile]) *)

(** An [*os.File] opened for writing: what was written so far, and whether
    the descriptor was closed (every write then fails). *)
Record File := mkFile {
  contents : string;
  closed : bool
}.

Definition newFile : File := mkFile "" false.

(** [fd.WriteString(s)]; the number of bytes written is dropped by every
    caller. *)
Definition WriteString (s : string) (fd : File) : File * error :=
  if closed fd then (fd, Some "file already closed"%string)
  else (mkFile (contents fd +:+ s) false, None).

(** Statements that write to the file and return an error; [statements]
    runs them in order and stops at the first error
    ([if err != nil { return err }]). *)
Fixpoint statements (ws : list (File -> File * error)) (fd : File) : File * error :=
  match ws with
  | [] => (fd, None)
  | w :: ws' =>
      match w fd with
      | (fd', None) => statements ws' fd'
      | (fd', Some err) => (fd', Some err)
      end
  end.

(** [for k, v := range m { body }] over the pairs in the order visited. *)
Definition forRange (pairs : list (Z * Z)) (body : Z -> Z -> File -> File * error)
    : File -> File * error :=
  statements (map (fun kv => body kv.1 kv.2) pairs).

(** The verb [%d] of [fmt.Sprintf]. *)
Definition fmt_d (z : Z) : string := pretty z.

(** Go leaves the order in which [range] visits a map unspecified and
    changes it from one loop to the next.  A run of the report takes the
    order as a parameter [range]; it is a legal one when it enumerates
    exactly the entries of the map. *)
Definition valid_range (range : gmap Z Z -> list (Z * Z)) : Prop :=
  forall m, range m ≡ₚ map_to_list m.

Section Report.

Variable range : gmap Z Z -> list (Z * Z).

Definition writeCountStatsToFile (numCalls sizeThreshold : Z) (cs : CountStats)
    : File -> File * error :=
  let totalSendMsgs := wrap (NumSendSmallMsgs cs + NumSendLargeMsgs cs) in
  let per_calls (n : Z) := fmt_d n +:+ "/" +:+ fmt_d numCalls in
  let of_all (n : Z) (what : string) :=
    fmt_d n +:+ "/" +:+ fmt_d totalSendMsgs +:+ " of all messages are " +:+ what
    +:+ " (threshold = " +:+ fmt_d sizeThreshold +:+ ")" +:+ nl in
  statements [
    WriteString ("# Message sizes" +:+ nl +:+ nl);
    WriteString (of_all (NumSendLargeMsgs cs) "large");
    WriteString (of_all (NumSendSmallMsgs cs) "small");
    WriteString (of_all (NumSendSmallNotZeroMsgs cs) "small, but not 0-size");
    WriteString (nl +:+ "# Sparsity" +:+ nl +:+ nl);
    forRange (range (CallSendSparsity cs)) (fun numZeros nCalls =>
      WriteString (per_calls nCalls +:+ " of all calls have " +:+ fmt_d numZeros
                   +:+ " send counts equals to zero" +:+ nl));
    forRange (range (CallRecvSparsity cs)) (fun numZeros nCalls =>
      WriteString (per_calls nCalls +:+ " of all calls have " +:+ fmt_d numZeros
                   +:+ " recv counts equals to zero" +:+ nl));
    WriteString (nl +:+ "# Min/max" +:+ nl);
    forRange (range (SendMins cs)) (fun mins n =>
      WriteString (per_calls n +:+ " calls have a send count min of "
                   +:+ fmt_d mins +:+ nl));
    forRange (range (RecvMins cs)) (fun mins n =>
      WriteString (per_calls n +:+ " calls have a recv count min of "
                   +:+ fmt_d mins +:+ nl));
    forRange (range (SendNotZeroMins cs)) (fun mins n =>
      WriteString (per_calls n +:+ " calls have a send count min of "
                   +:+ fmt_d mins +:+ " (excluding zero)" +:+ nl));
    forRange (range (RecvNotZeroMins cs)) (fun mins n =>
      WriteString (per_calls n +:+ " calls have a recv count min of "
                   +:+ fmt_d mins +:+ " (excluding zero)" +:+ nl));
    forRange (range (SendMaxs cs)) (fun maxs n =>
      WriteString (per_calls n +:+ " calls have a send count max of "
                   +:+ fmt_d maxs +:+ nl));
    forRange (range (RecvMaxs cs)) (fun maxs n =>
      WriteString (per_calls n +:+ " calls have a recv count max of "
                   +:+ fmt_d maxs +:+ nl))
  ].

End Report.

(** *** The validation of the counters ([Validate]) *)

(** A [bufio.Reader] on an opened file, seen as the sequence of results of
    [ReadString('\n')]: the lines that end with the delimiter, then the
    read that fails, with the text read before the failure. *)
Inductive last_read :=
  | AtEOF (line : string)
  | ReadError (line : string) (msg : string).

Record Reader := mkReader {
  full_lines : list string;
  ending : last_read
}.

(** The lines of a text, each with its line feed, and the text after the
    last line feed. *)
Fixpoint split_lines (data : string) : list string * string :=
  match data with
  | EmptyString => ([], EmptyString)
  | String c rest =>
      let '(ls, last) := split_lines rest in
      if Ascii.eqb c (ascii_of_nat 10) then (String c EmptyString :: ls, last)
      else match ls with
           | [] => ([], String c last)
           | l :: ls' => (String c l :: ls', last)
           end
  end.

(** The reader of a file that holds [data] and is read without error. *)
Definition NewReader (data : string) : Reader :=
  mkReader (split_lines data).1 (AtEOF (split_lines data).2).

(** The test [line != "" && line != "\n"]. *)
Definition non_empty_line (line : string) : bool :=
  negb (String.eqb line "") && negb (String.eqb line nl).

(** The [if] statement on a line that was read: [None] is
    [return "", "", fmt.Errorf("invalid file format")]. *)
Definition keep_line (line sendCounters recvCounters : string)
    : option (string * string) :=
  if non_empty_line line then
    if String.eqb sendCounters "" then Some (line, recvCounters)
    else if String.eqb recvCounters "" then Some (sendCounters, line)
    else None
  else Some (sendCounters, recvCounters).

Section Validation.

(** The file system and the lookup in the count files are parameters:
    [ioutil.ReadDir] gives the names of a directory, [os.Open] followed by
    [bufio.NewReader] a reader, [filepath.Join] a path; and
    [datafilereader.FindCallRankCounters] is not part of the sources at
    hand. *)
Variable ReadDir : string -> list string + string.
Variable Open : string -> Reader + string.
Variable Join : string -> string -> string.
Variable FindCallRankCounters : string -> Z -> Z -> Z -> (string * string) + string.

Definition getValidationFiles (basedir id : string) : list string + string :=
  match ReadDir basedir with
  | inr err => inr ("[ERROR] unable to read " +:+ basedir +:+ ": " +:+ err)
  | inl f =>
      inl (map (Join basedir)
             (filter (fun name => Strings.HasPrefix name ("validation_data-pid" +:+ id) = true) f))
  end.

Definition convert (str : string) : Z + string :=
  match Strconv.Atoi str with
  | inl n => inl n
  | inr err => inr ("unable to convert " +:+ str +:+ ": " +:+ err)
  end.

Definition getInfoFromFilename (path : string) : (Z * Z * Z) + string :=
  let filename := Filepath.Base path in
  let filename := Strings.ReplaceAll filename "validation_data-" "" in
  let filename := Strings.ReplaceAll filename ".txt" "" in
  match Strings.Split filename "-" with
  | [idStr; rankStr; callStr] =>
      let idStr := Strings.ReplaceAll idStr "pid" "" in
      let rankStr := Strings.ReplaceAll rankStr "rank" "" in
      let callStr := Strings.ReplaceAll callStr "call" "" in
      match convert idStr with
      | inr err => inr err
      | inl id =>
          match convert rankStr with
          | inr err => inr err
          | inl rank =>
              match convert callStr with
              | inr err => inr err
              | inl call => inl (id, rank, call)
              end
          end
      end
  | _ => inr "filename has the wrong format"%string
  end.

(** The loop [for { line, readerErr := reader.ReadString('\n') ... }]: the
    result is the early return, or the two variables at the [break]. *)
Fixpoint read_counters (path : string) (lines : list string) (last : last_read)
    (sendCounters recvCounters : string) : (string * string) + string :=
  match lines with
  | line :: lines' =>
      match keep_line line sendCounters recvCounters with
      | None => inr "invalid file format"%string
      | Some (sendCounters', recvCounters') =>
          read_counters path lines' last sendCounters' recvCounters'
      end
  | [] =>
      match last with
      | ReadError _ readerErr =>
          inr ("unable to read header from " +:+ path +:+ ": " +:+ readerErr)
      | AtEOF line =>
          match keep_line line sendCounters recvCounters with
          | None => inr "invalid file format"%string
          | Some (sendCounters', recvCounters') => inl (sendCounters', recvCounters')
          end
      end
  end.

Definition getCountersFromValidationFile (path : string) : (string * string) + string :=
  match Open path with
  | inr err => inr ("unable to open " +:+ path +:+ ": " +:+ err)
  | inl reader =>
      match read_counters path (full_lines reader) (ending reader) "" "" with
      | inr err => inr err
      | inl (sendCounters, recvCounters) =>
          if String.eqb sendCounters "" || String.eqb recvCounters "" then
            inr ("unable to load send and receive counters from " +:+ path)
          else
            let sendCounters := Strings.TrimRight sendCounters nl in
            let recvCounters := Strings.TrimRight recvCounters nl in
            let sendCounters := Strings.TrimRight sendCounters " " in
            let recvCounters := Strings.TrimRight recvCounters " " in
            inl (sendCounters, recvCounters)
      end
  end.

Definition send_mismatch (f sendCounters1 sendCounters2 recvCounters1 recvCounters2 : string)
    : string :=
  "Send counters do not match with " +:+ Filepath.Base f +:+ ": expected '"
  +:+ sendCounters1 +:+ "' but got '" +:+ sendCounters2 +:+ "'" +:+ nl
  +:+ "Receive counts are: " +:+ recvCounters1 +:+ " vs. " +:+ recvCounters2.

Definition recv_mismatch (f sendCounters1 sendCounters2 recvCounters1 recvCounters2 : string)
    : string :=
  "Receive counters do not match " +:+ Filepath.Base f +:+ ": expected '"
  +:+ recvCounters1 +:+ "' but got '" +:+ recvCounters2 +:+ "'" +:+ nl
  +:+ "Send counts are: " +:+ sendCounters1 +:+ " vs. " +:+ sendCounters2.

(** The loop [for _, f := range files] of [Validate]; what the function
    prints on the way is left out. *)
Fixpoint validate_files (jobid : Z) (dir : string) (files : list string) : error :=
  match files with
  | [] => None
  | f :: files' =>
      match getInfoFromFilename f with
      | inr err => Some err
      | inl (_, rank, call) =>
          match getCountersFromValidationFile f with
          | inr err => Some err
          | inl (sendCounters1, recvCounters1) =>
              match FindCallRankCounters dir jobid rank call with
              | inr err => Some err
              | inl (sendCounters2, recvCounters2) =>
                  if negb (String.eqb sendCounters1 sendCounters2) then
                    Some (send_mismatch f sendCounters1 sendCounters2
                            recvCounters1 recvCounters2)
                  else if negb (String.eqb recvCounters1 recvCounters2) then
                    Some (recv_mismatch f sendCounters1 sendCounters2
                            recvCounters1 recvCounters2)
                  else validate_files jobid dir files'
              end
          end
      end
  end.

Definition Validate (jobid pid : Z) (dir : string) : error :=
  let idStr := Strconv.Itoa pid in
  match getValidationFiles dir idStr with
  | inr err => Some err
  | inl files => validate_files jobid dir files
  end.

(** A file passes when its name is parsed, its two counters are loaded, the
    lookup succeeds and returns the same two strings. *)
Definition file_matches (jobid : Z) (dir f : string) : Prop :=
  exists id rank call sendCounters recvCounters,
    getInfoFromFilename f = inl (id, rank, call) /\
    getCountersFromValidationFile f = inl (sendCounters, recvCounters) /\
    FindCallRankCounters dir jobid rank call = inl (sendCounters, recvCounters).

End Validation.

(** [x] occurs in [msg]. *)
Definition contains (msg x : string) : Prop :=
  exists before after, msg = before +:+ x +:+ after.

(** The non-empty lines of a text, in order. *)
Definition non_empty_lines (data : string) : list string :=
  filter (fun line => non_empty_line line = true)
         ((split_lines data).1 ++ [(split_lines data).2]).

(** [strings.TrimRight(strings.TrimRight(line, "\n"), " ")]. *)
Definition stripped (line : string) : string :=
  Strings.TrimRight (Strings.TrimRight line nl) " ".

(** The keys of a histogram in the order a run emits them. *)
Definition emitted_keys (range : gmap Z Z -> list (Z * Z)) (m : gmap Z Z) : list Z :=
  map fst (range m).

Definition qualifying (s : gmap Z Z) (v n : Z) : Prop :=
  s !! v = Some n /\ wrap (n * 100) < v.

(** The pairs of a send signature that pass the fan-out test. *)
Definition one_to_n_pairs (s : gmap Z Z) : list (Z * Z) :=
  filter (fun kv => is_one_to_n kv = true) (map_to_list s).

(** The tables [addPattern] builds, starting from the zero value. *)
Inductive built : store -> GlobalPatterns -> Prop :=
  | built_zero : built [] noPatterns
  | built_add h g callNum s r h' g' e :
      built h g ->
      addPattern h g callNum s r = Some (h', g', e) ->
      built h' g'.

(** How many times a pointer occurs in a slice. *)
Definition occurrences (p : ptr) (l : list ptr) : nat :=
  length (filter (fun q => q = p) l).

(** What holds of every table built by [addPattern]: the pointers are
    allocated, and a pattern occurs in the fan-out index once per qualifying
    pair of its send signature. *)
Definition table_inv (h : store) (g : GlobalPatterns) : Prop :=
  wf h g /\
  forall p x, p ∈ AllPatterns g -> h !! p = Some x ->
    occurrences p (OneToN g) = length (one_to_n_pairs (Send x)).

(** The fan-out requirement of section 4.3, step 4, for one submitted
    record: whenever a pair of the send signature qualifies, the pattern the
    record ends up in occurs exactly once in the fan-out index. *)
Definition fan_out_once (h : store) (g : GlobalPatterns) (callNum : Z)
    (s r : gmap Z Z) : Prop :=
  forall h' g' e v n,
    addPattern h g callNum s r = Some (h', g', e) ->
    qualifying s v n ->
    occurrences (resulting_pattern h g s r) (OneToN g') = 1%nat.

(** *** The bins of message sizes ([createBins], [GetBins]) *)

Record Bin := mkBin {
  Min : Z;
  Max : Z;
  Size : Z
}.

(** The loop of [createBins] with [n] iterations left: [i] is the loop
    variable, [start] and [end_] the two local variables. *)
Fixpoint createBins_loop (n i : nat) (start end_ : Z) (listBins : list Z)
    : list Bin :=
  match n with
  | O => []
  | S n' =>
      let b := mkBin start end_ 0 in
      let end' := if (i + 1 <? length listBins)%nat
                  then default 0 (listBins !! (i + 1)%nat)
                  else -1 in
      b :: createBins_loop n' (S i) end_ end' listBins
  end.

(** [createBins]; [None] is the panic of [listBins[0]] on an empty
    slice. *)
Definition createBins (listBins : list Z) : option (list Bin) :=
  match listBins !! 0%nat with
  | None => None
  | Some end_ => Some (createBins_loop (length listBins + 1) 0 0 end_ listBins)
  end.

(** The test of the loop over the bins in [GetBins]. *)
Definition in_bin (b : Bin) (val : Z) : bool :=
  (negb (Max b =? -1) && (Min b <=? val) && (val <? Max b))
  || ((Max b =? -1) && (Min b <=? val)).

(** The loop over the bins: the first bin that holds [val] grows by
    [weight], and the loop ends there ([break]). *)
Fixpoint count_in_bins (bins : list Bin) (val weight : Z) : list Bin :=
  match bins with
  | [] => []
  | b :: bins' =>
      if in_bin b val
      then mkBin (Min b) (Max b) (wrap (Size b + weight)) :: bins'
      else b :: count_in_bins bins' val weight
  end.

(** The loop over the counts of one line. *)
Fixpoint count_values (tokens : list string) (datatypeSize weight : Z)
    (bins : list Bin) : list Bin * error :=
  match tokens with
  | [] => (bins, None)
  | oneCount :: tokens' =>
      if String.eqb oneCount "" then count_values tokens' datatypeSize weight bins
      else
        match Strconv.Atoi oneCount with
        | inr err => (bins, Some err)
        | inl countVal =>
            let val := wrap (countVal * datatypeSize) in
            count_values tokens' datatypeSize weight (count_in_bins bins val weight)
        end
  end.

Section GetBins.

(** [notation.ConvertCompressedCallListToIntSlice] is not part of the
    sources at hand: a parameter.  So are [os.Open] and the readers of
    package [datafilereader]: [read_blocks] gives, for a path, the error of
    [os.Open] or what the successive calls of [GetHeader] and [GetCounters]
    return, that is the blocks read without error from their header (the
    number of calls and the datatype size are the two results [GetBins]
    keeps, with the result of [GetCounters]) and how the reading ends:
    [None] for [io.EOF], or the error of [GetHeader]. *)
Variable ConvertCompressedCallListToIntSlice : string -> list Z + string.
Variable read_blocks :
  string -> (list (Z * Z * (list string + string)) * option string) + string.

(** The body of the loop over the counters lines of a block; the outer
    [None] is the panic of [tokens[1]] on a line without ": ". *)
Definition count_line (c : string) (numCalls datatypeSize : Z) (bins : list Bin)
    : option (list Bin * error) :=
  match Strings.Split c ": " with
  | ranks :: counts :: _ =>
      let counts := Strings.TrimRight counts nl in
      let ranks := Strings.TrimLeft ranks "Rank(s) " in
      match ConvertCompressedCallListToIntSlice ranks with
      | inr err => Some (bins, Some err)
      | inl listRanks =>
          let nRanks := Z.of_nat (length listRanks) in
          Some (count_values (Strings.Split counts " ") datatypeSize
                  (wrap (numCalls * nRanks)) bins)
      end
  | _ => None
  end.

Fixpoint count_lines (counters : list string) (numCalls datatypeSize : Z)
    (bins : list Bin) : option (list Bin * error) :=
  match counters with
  | [] => Some (bins, None)
  | c :: counters' =>
      match count_line c numCalls datatypeSize bins with
      | None => None
      | Some (bins', Some err) => Some (bins', Some err)
      | Some (bins', None) => count_lines counters' numCalls datatypeSize bins'
      end
  end.

(** The loop [for { ... }] of [GetBins] over the blocks of the file. *)
Fixpoint count_blocks (blocks : list (Z * Z * (list string + string)))
    (ending : option string) (bins : list Bin) : option (list Bin * error) :=
  match blocks with
  | [] => Some (bins, ending)
  | (numCalls, datatypeSize, inr err) :: _ => Some (bins, Some err)
  | (numCalls, datatypeSize, inl counters) :: blocks' =>
      match count_lines counters numCalls datatypeSize bins with
      | None => None
      | Some (bins', Some err) => Some (bins', Some err)
      | Some (bins', None) => count_blocks blocks' ending bins'
      end
  end.

Definition GetBins (countFilePath : string) (listBins : list Z)
    : option (list Bin * error) :=
  match createBins listBins with
  | None => None
  | Some bins =>
      match read_blocks countFilePath with
      | inr err => Some (bins, Some err)
      | inl (blocks, ending) => count_blocks blocks ending bins
      end
  end.

End GetBins.

(** The loops of [GetCallRankData] over the tokens of a line of counters:
    an empty token is skipped, a token that is not a number ends the
    function with the error of [strconv.Atoi], and [sum] is the running
    sum. *)
Fixpoint sum_tokens (tokens : list string) (sum : Z) : Z + string :=
  match tokens with
  | [] => inl sum
  | t :: tokens' =>
      if String.eqb t "" then sum_tokens tokens' sum
      else match Strconv.Atoi t with
           | inr err => inr err
           | inl n => sum_tokens tokens' (wrap (sum + n))
           end
  end.

Section GetCallRankData.

(** [datafilereader.ReadCallRankCounters] is not part of the sources at
    hand: it is a parameter, which gives the counters and the datatype size
    (its third result is not used here) or an error. *)
Variable ReadCallRankCounters : list string -> Z -> Z -> (string * Z) + string.

Definition GetCallRankData (sendCountersFile recvCountersFile : string)
    (callNum rank : Z) : (Z * Z) + string :=
  match ReadCallRankCounters [sendCountersFile] rank callNum with
  | inr err => inr err
  | inl (sendCounters, sendDatatypeSize) =>
      match ReadCallRankCounters [recvCountersFile] rank callNum with
      | inr err => inr err
      | inl (recvCounters, recvDatatypeSize) =>
          let sendCounters := Strings.TrimRight sendCounters nl in
          let recvCounters := Strings.TrimRight recvCounters nl in
          match sum_tokens (Strings.Split sendCounters " ") 0 with
          | inr err => inr err
          | inl sendSum =>
              let sendSum := wrap (sendSum * sendDatatypeSize) in
              match sum_tokens (Strings.Split recvCounters " ") 0 with
              | inr err => inr err
              | inl recvSum =>
                  let recvSum := wrap (recvSum * recvDatatypeSize) in
                  inl (sendSum, recvSum)
              end
          end
      end
  end.

End GetCallRankData.

(** *** Notions used to state what the pattern table and the statistics keep *)


(** The call numbers recorded in a store, pattern after pattern. *)
Definition recorded_calls (h : store) : list Z := concat (map Calls h).

(** The sum of the counts of a histogram. *)
Definition total (m : gmap Z Z) : Z := foldr Z.add 0 (map snd (map_to_list m)).

End Profiler.

(** ** The C logger: the rank-list notation ([compress_int_array]) *)

Module Logger.

(** What a run of C code can do: return, run into undefined behaviour (a
    read or a write outside of the block it was given), or exhaust the fuel
    of the model. *)
Inductive outcome (A : Type) : Type :=
  | Done (a : A)
  | Undefined
  | OutOfFuel.
Arguments Done {A} a.
Arguments Undefined {A}.
Arguments OutOfFuel {A}.

(** The verb [%d] of [sprintf]. *)
Definition fmt_d (z : Z) : string := pretty z.

Section Compress.

(** [MAX_STRING_LEN] is defined in a header that is not part of the sources
    at hand: the size of the buffers of [add_range] and [add_singleton]. *)
Variable MAX_STRING_LEN : nat.

(** [sprintf] of [text] after the first [String.length kept] characters of a
    buffer of [MAX_STRING_LEN] bytes; the terminating NUL needs one byte. *)
Definition sprintf_at (kept text : string) : outcome string :=
  let s := kept +:+ text in
  if (String.length s <? MAX_STRING_LEN)%nat then Done s else Undefined.

(** A [char *] is [None] when it is [NULL] and [Some s] when it points to
    the string [s].  In the [else] branch the text is printed at
    [&str[len - 1]]: it replaces the last character of [str]. *)
Definition add_range (str : option string) (start end_ : Z) : outcome string :=
  match str with
  | None => sprintf_at "" (fmt_d start +:+ "-" +:+ fmt_d end_)
  | Some str =>
      let len := String.length str in
      if (len =? 0)%nat then Undefined
      else sprintf_at (substring 0 (len - 1) str)
                      (", " +:+ fmt_d start +:+ "-" +:+ fmt_d end_)
  end.

Definition add_singleton (str : option string) (n : Z) : outcome string :=
  match str with
  | None => sprintf_at "" (fmt_d n)
  | Some str =>
      let len := String.length str in
      if (len =? 0)%nat then Undefined
      else sprintf_at (substring 0 (len - 1) str) (", " +:+ fmt_d n)
  end.

(** The loop [while (array[i] = array[i + 1]) i++;].  [array] is the whole
    block the pointer designates; the condition is an assignment, whose
    value is the value stored. *)
Fixpoint range_end (fuel : nat) (array : list Z) (i : Z) : outcome (list Z * Z) :=
  match array !! Z.to_nat (i + 1) with
  | None => Undefined
  | Some v =>
      let array' := <[Z.to_nat i := v]> array in
      if v =? 0 then Done (array', i)
      else match fuel with
           | O => OutOfFuel
           | S fuel' => range_end fuel' array' (i + 1)
           end
  end.

(** The loop [for (i = 0; i < size; i++)], entered with the current [i]. *)
Fixpoint compress_loop (fuel : nat) (array : list Z) (size i : Z)
    (compressedRep : option string) : outcome (list Z * option string) :=
  if size <=? i then Done (array, compressedRep)
  else
    match fuel with
    | O => OutOfFuel
    | S fuel' =>
        let start := i in
        match range_end (length array) array i with
        | Undefined => Undefined
        | OutOfFuel => OutOfFuel
        | Done (array', i') =>
            let added :=
              if negb (i' =? start)
              then add_range compressedRep start i'
              else add_singleton compressedRep i' in
            match added with
            | Undefined => Undefined
            | OutOfFuel => OutOfFuel
            | Done rep => compress_loop fuel' array' size (i' + 1) (Some rep)
            end
        end
    end.

(** [compress_int_array(array, size)].  [compressedRep] is declared without
    an initial value: [garbage] is what the variable holds on entry.  The
    result is the block after the call and the pointer returned. *)
Definition compress_int_array (garbage : option string) (array : list Z)
    (size : Z) : outcome (list Z * option string) :=
  compress_loop (length array) array size 0 garbage.

End Compress.

(** The counters of one line of raw data as [_log_data] prints them:
    ["%d "] for each counter, then the line feed. *)
Definition print_counters (counters : list Z) : string :=
  foldr (fun n rest => fmt_d n +:+ " " +:+ rest) nl counters.

End Logger.

(** ** The capture library: the list of the counts seen *)

Module Capture.
Import Logger.

(** C's [INT_MAX] for a 32-bit [int]. *)
Definition INT_MAX : Z := 2 ^ 31 - 1.

(** A node of the list [head].  The blocks [send_data] and [recv_data] are
    the cells that were allocated; [comm] and [op_exec_times] are never set
    by the code below and are left out; [next] is the rest of the list. *)
Record avSRCountNode := mkNode {
  size : Z;
  count : Z;
  sendtype_size : Z;
  recvtype_size : Z;
  send_data : list Z;
  recv_data : list Z
}.

Definition and_then {A B : Type} (o : outcome A) (k : A -> outcome B) : outcome B :=
  match o with
  | Done a => k a
  | Undefined => Undefined
  | OutOfFuel => OutOfFuel
  end.

(** The two loops of [same_data] visit [num = 0, 1, ...] in order, [size]
    times [size] cells when [size] is positive and none otherwise; [todo]
    is the number of cells still to visit.  A read outside of a block is
    undefined, and so is [num++] at [INT_MAX]. *)
Fixpoint same_data_from (todo : nat) (dest src : list Z) (num : Z) : outcome bool :=
  match todo with
  | O => Done true
  | S todo' =>
      match dest !! Z.to_nat num, src !! Z.to_nat num with
      | Some d, Some s =>
          if negb (d =? s) then Done false
          else if num =? INT_MAX then Undefined
          else same_data_from todo' dest src (num + 1)
      | _, _ => Undefined
      end
  end.

Definition same_data (dest src : list Z) (size : Z) : outcome bool :=
  same_data_from (Z.to_nat size * Z.to_nat size) dest src 0.

(** The [while] loop of [insert_sendrecv_data] from the node [temp] on:
    [Some nodes] when a node was found, with its count incremented (the
    function returns there), [None] when the end of the list is reached.
    [same_data] is called before the sizes are compared. *)
Fixpoint find_and_count (nodes : list avSRCountNode) (sbuf : list Z)
    (size sendtype_size recvtype_size : Z) : outcome (option (list avSRCountNode)) :=
  match nodes with
  | [] => Done None
  | temp :: next =>
      and_then (same_data (temp.(send_data)) sbuf size) (fun same =>
        if negb same
           || negb (temp.(Capture.size) =? size)
           || negb (temp.(Capture.recvtype_size) =? recvtype_size)
           || negb (temp.(Capture.sendtype_size) =? sendtype_size)
        then
          and_then (find_and_count next sbuf size sendtype_size recvtype_size)
            (fun found => Done (option_map (cons temp) found))
        else if temp.(count) =? INT_MAX then Undefined
        else Done (Some (mkNode temp.(Capture.size) (temp.(count) + 1)
                           temp.(Capture.sendtype_size) temp.(Capture.recvtype_size)
                           temp.(send_data) temp.(recv_data) :: next)))
  end.

(** The loops that fill the new node: cell [num] of both buffers is read
    for [num = 0, 1, ...]. *)
Fixpoint copy_data (todo : nat) (sbuf rbuf : list Z) (num : nat)
    : outcome (list Z * list Z) :=
  match todo with
  | O => Done ([], [])
  | S todo' =>
      match sbuf !! num, rbuf !! num with
      | Some s, Some r =>
          and_then (copy_data todo' sbuf rbuf (S num)) (fun copied =>
            Done (s :: copied.1, r :: copied.2))
      | _, _ => Undefined
      end
  end.

(** [insert_sendrecv_data], on the list [head]: the list after the call.
    The allocations are taken to succeed; [size * size] is computed on
    [int], where an overflow is undefined. *)
Definition insert_sendrecv_data (sbuf rbuf : list Z)
    (size sendtype_size recvtype_size : Z) (head : list avSRCountNode)
    : outcome (list avSRCountNode) :=
  and_then (find_and_count head sbuf size sendtype_size recvtype_size) (fun found =>
    match found with
    | Some head' => Done head'
    | None =>
        if INT_MAX <? size * size then Undefined
        else
          and_then (copy_data (Z.to_nat size * Z.to_nat size) sbuf rbuf 0)
            (fun copied =>
               Done (head ++ [mkNode size 1 sendtype_size recvtype_size
                                copied.1 copied.2]))
    end).

(** The number of calls the list accounts for. *)
Definition calls_counted (head : list avSRCountNode) : Z :=
  foldr Z.add 0 (map count head).

End Capture.

(** ** Package [notation]: the codec of the tools *)

Module Notation.

(** Modelled from the spec: the runs of consecutive identifiers of an
    ascending sequence (section 4.1, [ids[i+1] == ids[i]+1]), each by its
    first and last value. *)
Fixpoint runs (ids : list Z) : list (Z * Z) :=
  match ids with
  | [] => []
  | x :: rest =>
      match runs rest with
      | (a, b) :: rs => if x + 1 =? a then (x, b) :: rs else (x, x) :: (a, b) :: rs
      | [] => [(x, x)]
      end
  end.

(** Modelled from the spec: "start-end" for a run of length at least 2,
    the decimal value for an isolated identifier. *)
Definition token (run : Z * Z) : string :=
  if run.1 =? run.2 then pretty run.1 else pretty run.1 +:+ "-" +:+ pretty run.2.

(** Modelled from the spec: the tokens joined with a separator. *)
Fixpoint join (sep : string) (tokens : list string) : string :=
  match tokens with
  | [] => EmptyString
  | [t] => t
  | t :: tokens' => t +:+ sep +:+ join sep tokens'
  end.

(** Modelled from the spec: [notation.CompressIntArray] is not part of the
    sources at hand.  Section 4.1: consecutive runs of length at least 2 are
    rendered as "start-end", isolated ids as their decimal value, the tokens
    are joined with ", ", and the empty input gives the empty string. *)
Definition CompressIntArray (ids : list Z) : string :=
  join ", " (map token (runs ids)).

(** Modelled from the spec: a bare integer, decimal digits, at least
    one. *)
Definition parse_id (t : string) : option Z :=
  match t with
  | EmptyString => None
  | _ => Strconv.digits_value 0 t
  end.

(** Modelled from the spec: the expansion of "a-b", the identifiers [a],
    [a+1], ..., [b]. *)
Definition expand (a b : Z) : list Z :=
  map (fun k => a + Z.of_nat k) (seq 0 (Z.to_nat (b - a + 1))).

(** Modelled from the spec: a token is a bare integer or an inclusive
    range that is not reversed. *)
Definition decode_token (t : string) : option (list Z) :=
  match Strings.Split t "-" with
  | [a] => match parse_id a with Some x => Some [x] | None => None end
  | [a; b] =>
      match parse_id a, parse_id b with
      | Some x, Some y => if x <=? y then Some (expand x y) else None
      | _, _ => None
      end
  | _ => None
  end.

(** Modelled from the spec: the tokens decoded in order. *)
Fixpoint decode_tokens (tokens : list string) : option (list Z) :=
  match tokens with
  | [] => Some []
  | t :: tokens' =>
      match decode_token t, decode_tokens tokens' with
      | Some ids, Some ids' => Some (ids ++ ids')
      | _, _ => None
      end
  end.

(** Modelled from the spec: the result has to be strictly ascending. *)
Fixpoint strictly_ascending (ids : list Z) : bool :=
  match ids with
  | x :: ((y :: _) as rest) => (x <? y) && strictly_ascending rest
  | _ => true
  end.

(** Modelled from the spec: [notation.ConvertCompressedCallListToIntSlice]
    is not part of the sources at hand.  Section 4.1: the string is split
    on ", "; a token is a bare integer or "a-b" with [a <= b], which is
    expanded; a token that is not numeric, a reversed range and a result
    that is not strictly ascending are format errors ([None]); the empty
    string gives the empty sequence. *)
Definition decompress (s : string) : option (list Z) :=
  match s with
  | EmptyString => Some []
  | _ =>
      match decode_tokens (Strings.Split s ", ") with
      | Some ids => if strictly_ascending ids then Some ids else None
      | None => None
      end
  end.

End Notation.

(** ** Package [format] *)

Module Format.

Record KV := mkKV {
  Key : Z;
  Val : Z
}.

Abbreviation KVList := (list KV) (only parsing).

(** [KVList.Less]: by value. *)
Definition Less (a b : KV) : bool := Val a <? Val b.

(** [sort.Sort] promises a slice sorted for [Less] and nothing about
    elements that compare equal.  For the short slices of this tool Go sorts
    by insertion: each element moves left while it is [Less] than its left
    neighbour. *)
Fixpoint insert_kv (x : KV) (sorted : list KV) : list KV :=
  match sorted with
  | [] => [x]
  | y :: sorted' => if Less x y then x :: sorted else y :: insert_kv x sorted'
  end.

Definition Sort (l : list KV) : list KV :=
  foldl (fun sorted x => insert_kv x sorted) [] l.

Definition ConvertIntMapToOrderedArrayByValue
    (range : gmap Z Z -> list (Z * Z)) (m : gmap Z Z) : list KV :=
  let sortedArray := map (fun kv => mkKV kv.1 kv.2) (range m) in
  Sort sortedArray.

End Format.

(** ** The grouping engine *)

Module Grouping.

(** Modelled from the spec: [VolumeGroup] of section 3, one cluster: the
    inclusive interval of the values of its members, the number of members
    and their ids in the order they were added. *)
Record VolumeGroup := mkVolumeGroup {
  lo : Z;
  hi : Z;
  count : Z;
  members : list Z
}.

Section Clusterer.

(** The clustering policy: whether a value can join a group. *)
Variable compatible : Z -> VolumeGroup -> bool.

(** Modelled from the spec: a point joins a group; the interval stays the
    min/max of the values of the members. *)
Definition join_group (id value : Z) (g : VolumeGroup) : VolumeGroup :=
  mkVolumeGroup (Z.min (lo g) value) (Z.max (hi g) value) (count g + 1)
                (members g ++ [id]).

(** Modelled from the spec: [grouping.c] ([add_datapoint], [get_groups],
    [grouping_fini]) is not part of the sources at hand; only its test is.
    Section 4.5: a point is assigned to an existing group if it is compatible
    with that group under the policy, otherwise a new group is opened; a
    point once assigned is never re-evaluated; the interval of a group is the
    min/max of the values of its members. *)
Fixpoint add (id value : Z) (groups : list VolumeGroup) : list VolumeGroup :=
  match groups with
  | [] => [mkVolumeGroup value value 1 [id]]
  | g :: groups' =>
      if compatible value g then join_group id value g :: groups'
      else g :: add id value groups'
  end.

(** Modelled from the spec: [get_groups] followed by [grouping_fini].
    Section 4.5: [finalize()] returns the ordered list of groups, then
    resets the internal state.  The result is the list returned and the
    state left. *)
Definition finalize (groups : list VolumeGroup)
    : list VolumeGroup * list VolumeGroup :=
  (groups, []).

End Clusterer.

(** Modelled from the spec: the policy section 4.5 names, a value adjacent
    to the interval of the group or inside it. *)
Definition adjacent_or_overlapping (value : Z) (g : VolumeGroup) : bool :=
  (lo g - 1 <=? value) && (value <=? hi g + 1).

End Grouping.

(** ** Package [scale]: rescaling of a map of floats *)

Module Scale.

(** Go's [float64] is the primitive binary64 [float]. *)

(** The order of [sort.Float64s]: [x < y], and a NaN before any other
    value. *)
Definition float_less (x y : float) : bool :=
  PrimFloat.ltb x y || (PrimFloat.is_nan x && negb (PrimFloat.is_nan y)).

Fixpoint insert_float (x : float) (sorted : list float) : list float :=
  match sorted with
  | [] => [x]
  | y :: sorted' =>
      if float_less x y then x :: sorted else y :: insert_float x sorted'
  end.

(** [sort.Float64s], by insertion.  Values that compare equal (0 and -0)
    may come out in another order in Go; no test below tells them apart. *)
Definition Float64s (l : list float) : list float :=
  foldl (fun sorted x => insert_float x sorted) [] l.

Section MapFloat64s.

(** Package [unit] and the constants [DOWN] and [UP] of package [scale] are
    not part of the sources at hand: they are parameters. *)
Variable FromString : string -> Z * Z.
Variable ToString : Z -> Z -> string.
Variable IsValidScale : Z -> Z -> bool.
Variables DOWN UP : Z.

(** The [switch] tries [case DOWN] first. *)
Definition mapFloat64sCompute (op : Z) (values : gmap Z float) : gmap Z float :=
  if op =? DOWN then (fun val => PrimFloat.mul val 1000) <$> values
  else if op =? UP then (fun val => PrimFloat.div val 1000) <$> values
  else ∅.

Definition mapFloat64sScaleDown (unitType unitScale : Z) (values : gmap Z float)
    : Z * Z * gmap Z float :=
  if unitScale =? -1 then (unitType, unitScale, values)
  else
    let newUnitScale := wrap (unitScale - 1) in
    if negb (IsValidScale unitType newUnitScale) then (unitType, unitScale, values)
    else (unitType, newUnitScale, mapFloat64sCompute DOWN values).

Definition mapFloat64sScaleUp (unitType unitScale : Z) (values : gmap Z float)
    : Z * Z * gmap Z float :=
  if unitScale =? -1 then (unitType, unitScale, values)
  else
    let newUnitScale := wrap (unitScale + 1) in
    if negb (IsValidScale unitType newUnitScale) then (unitType, unitScale, values)
    else (unitType, newUnitScale, mapFloat64sCompute UP values).

(** The element of a sorted slice at an index, for a test: reading outside
    of the slice does not happen behind the length tests that come first. *)
Definition at_index (l : list float) (i : nat) (test : float -> bool) : bool :=
  match l !! i with
  | Some x => test x
  | None => false
  end.

(** [MapFloat64s] calls itself; [fuel] bounds the depth of the calls, and
    [None] means that the bound was reached.  The values are collected in
    the order of the model of the map and then sorted. *)
Fixpoint MapFloat64s (fuel : nat) (unitID : string) (values : gmap Z float)
    : option (string * gmap Z float) :=
  match fuel with
  | O => None
  | S fuel' =>
      let sortedValues := Float64s (map snd (map_to_list values)) in
      if (2 <=? length sortedValues)%nat
         && at_index sortedValues 0 (fun x => PrimFloat.leb 0 x)
         && at_index sortedValues (size values - 1) (fun x => PrimFloat.leb x 1)
      then
        let '(unitType, unitScale) := FromString unitID in
        let '(unitType, unitScale, newValues) :=
          mapFloat64sScaleDown unitType unitScale values in
        let newUnitID := ToString unitType unitScale in
        MapFloat64s fuel' newUnitID newValues
      else if (0 <? length sortedValues)%nat
              && at_index sortedValues 0 (fun x => PrimFloat.leb 1000 x)
      then
        let '(unitType, unitScale) := FromString unitID in
        let '(unitType, unitScale, newValues) :=
          mapFloat64sScaleUp unitType unitScale values in
        let newUnitID := ToString unitType unitScale in
        MapFloat64s fuel' newUnitID newValues
      else Some (unitID, values)
  end.

(** The call returns: some depth of calls is enough. *)
Definition returns (unitID : string) (values : gmap Z float) : Prop :=
  exists fuel result, MapFloat64s fuel unitID values = Some result.

End MapFloat64s.

End Scale.

(** ** Inputs used to run the definitions *)

Module Inputs.

Import Datafilereader.

(** One call on two ranks: the smallest send count is 0, the smallest one
    that is not zero is 5; 0 and 7 on the receive side. *)
Definition one_call : CallInfo :=
  mkCallInfo 3 1 1 8 8 2 0 0 30 30 5 7 1 1 (mkCallPatterns {[ 1 := 2 ]} {[ 1 := 2 ]}).

(** A profile made of that single call. *)
Definition lookup_one_call (_ _ : string) (i _ : Z) : CallInfo + string :=
  if i =? 0 then inl one_call else inr "call not found"%string.

(** A profile of two calls that differ in their largest counts (30 and 10);
    the second call has no zero count. *)
Definition second_call : CallInfo :=
  mkCallInfo 4 4 0 8 8 2 5 7 10 10 5 7 0 0 (mkCallPatterns {[ 2 := 2 ]} {[ 2 := 2 ]}).

Definition lookup_two_calls (_ _ : string) (i _ : Z) : CallInfo + string :=
  if i =? 0 then inl one_call
  else if i =? 1 then inl second_call
  else inr "call not found"%string.

(** Two legal orders for [range]: the one of the model of the map, and the
    opposite one. *)
Definition range_stored (m : gmap Z Z) : list (Z * Z) := map_to_list m.
Definition range_reversed (m : gmap Z Z) : list (Z * Z) := reverse (map_to_list m).

(** A directory with one validation file, written by rank 0 of process 7
    for call 0, and count files that hold the same counters. *)
Definition dir_ReadDir (dir : string) : list string + string :=
  if String.eqb dir "out" then
    inl ["send-counters.job0.rank0.txt"; "validation_data-pid7-rank0-call0.txt"]%string
  else inr ("open " +:+ dir +:+ ": no such file or directory").

Definition dir_Join (dir name : string) : string := dir +:+ "/" +:+ name.

Definition dir_Open (path : string) : Profiler.Reader + string :=
  if String.eqb path "out/validation_data-pid7-rank0-call0.txt" then
    inl (Profiler.NewReader ("1 2 " +:+ nl +:+ "3 4 " +:+ nl))
  else inr ("open " +:+ path +:+ ": no such file or directory").

Definition dir_FindCallRankCounters (dir : string) (jobid rank call : Z)
    : (string * string) + string :=
  if (rank =? 0) && (call =? 0) then inl ("1 2", "3 4")%string
  else inr "unable to find counters"%string.

(** The same directory with count files that hold other send counters. *)
Definition other_FindCallRankCounters (dir : string) (jobid rank call : Z)
    : (string * string) + string :=
  if (rank =? 0) && (call =? 0) then inl ("1 5", "3 4")%string
  else inr "unable to find counters"%string.

(** A count file of one block: two calls, a datatype of 8 bytes, and one
    line of counters for the ranks 0 and 1. *)
Definition one_block (path : string)
    : (list (Z * Z * (list string + string)) * option string) + string :=
  inl ([(2, 8, inl ["Rank(s) 0-1: 10 30 " +:+ nl])], None).

Definition ranks_0_1 (ranks : string) : list Z + string :=
  if String.eqb ranks "0-1" then inl [0; 1] else inr "unknown ranks"%string.

(** Two measures that are both zero. *)
Definition two_zeros : gmap Z float := {[ 0 := 0%float; 1 := 0%float ]}.

End Inputs.

(** * Properties *)

Lemma wrap_small z : in_int z -> wrap z = z.
Proof.
  unfold in_int, int_min, int_max, wrap. intros H.
  rewrite Z.mod_small; lia.
Qed.

Section PatternTable.
Import Datafilereader(CompareCallPatterns).
Import Profiler.

Implicit Types (h : store) (g : GlobalPatterns) (s r : gmap Z Z) (ps : list ptr).

Lemma same_signature_spec x s r :
  same_signature x s r = true <-> Send x = s /\ Recv x = r.
Proof.
  unfold same_signature, CompareCallPatterns.
  rewrite andb_true_iff, !bool_decide_eq_true. tauto.
Qed.

Lemma same_signature_refl s r c l : same_signature (mkCallPattern s r c l) s r = true.
Proof. apply same_signature_spec; done. Qed.

Lemma scan_no_match h ps c s r :
  Forall (fun p => (p < length h)%nat) ps ->
  first_match h ps s r = None ->
  addPattern_scan h ps c s r = Some None.
Proof.
  induction 1 as [|p ps Hp _ IH]; simpl; [done|].
  destruct (lookup_lt_is_Some_2 h p Hp) as [x ->].
  destruct (same_signature x s r); [done | exact IH].
Qed.

Lemma scan_match h ps c s r p :
  Forall (fun p => (p < length h)%nat) ps ->
  first_match h ps s r = Some p ->
  exists x, h !! p = Some x /\ Send x = s /\ Recv x = r /\
    addPattern_scan h ps c s r =
      Some (Some (<[p := mkCallPattern s r (wrap (Count x + 1)) (Calls x ++ [c])]> h)).
Proof.
  induction 1 as [|q ps Hq _ IH]; simpl; [done|].
  destruct (lookup_lt_is_Some_2 h q Hq) as [x Hx]. rewrite Hx.
  destruct (same_signature x s r) eqn:E.
  - intros [= <-]. apply same_signature_spec in E as [<- <-]. eauto.
  - exact IH.
Qed.

Lemma first_match_grow h y ps s r :
  Forall (fun p => (p < length h)%nat) ps ->
  first_match (h ++ [y]) ps s r = first_match h ps s r.
Proof.
  induction 1 as [|p ps Hp _ IH]; simpl; [done|].
  rewrite lookup_app_l by done. rewrite IH. done.
Qed.

Lemma first_match_snoc h ps q s r :
  first_match h (ps ++ [q]) s r =
  match first_match h ps s r with
  | Some p => Some p
  | None => first_match h [q] s r
  end.
Proof.
  induction ps as [|p ps IH]; [simpl; by destruct (first_match h [q] s r)|].
  simpl. destruct (h !! p) as [x|]; [destruct (same_signature x s r)|]; done.
Qed.

Lemma detect_one_to_n_spec new_cp pairs oneToN :
  detect_one_to_n new_cp pairs oneToN =
  oneToN ++ replicate (length (filter (fun kv => is_one_to_n kv = true) pairs)) new_cp.
Proof.
  unfold detect_one_to_n. revert oneToN.
  induction pairs as [|kv pairs IH]; intros acc; simpl.
  - by rewrite app_nil_r.
  - rewrite IH. rewrite filter_cons. destruct (is_one_to_n kv) eqn:E.
    + rewrite decide_True by done. simpl. by rewrite <- app_assoc.
    + rewrite decide_False by congruence. done.
Qed.

(** The order in which [range] visits the map does not matter. *)
Lemma detect_one_to_n_perm new_cp l1 l2 oneToN :
  l1 ≡ₚ l2 -> detect_one_to_n new_cp l1 oneToN = detect_one_to_n new_cp l2 oneToN.
Proof.
  intros Hp. rewrite !detect_one_to_n_spec. by rewrite Hp.
Qed.

Lemma addPattern_new h g c s r :
  wf h g ->
  first_match h (AllPatterns g) s r = None ->
  addPattern h g c s r =
    Some (h ++ [mkCallPattern s r 1 [c]],
          mkGlobalPatterns (AllPatterns g ++ [length h])
            (detect_one_to_n (length h) (map_to_list s) (OneToN g)),
          None).
Proof.
  intros [Hall _] Hno. unfold addPattern.
  by rewrite (scan_no_match _ _ _ _ _ Hall Hno).
Qed.

Lemma addPattern_matched h g c s r p :
  wf h g ->
  first_match h (AllPatterns g) s r = Some p ->
  exists x, h !! p = Some x /\ Send x = s /\ Recv x = r /\
    addPattern h g c s r =
      Some (<[p := mkCallPattern s r (wrap (Count x + 1)) (Calls x ++ [c])]> h,
            g, None).
Proof.
  intros [Hall _] Hm. unfold addPattern.
  destruct (scan_match _ _ c _ _ _ Hall Hm) as (x & Hx & Hs & Hr & ->). eauto.
Qed.

Lemma wf_grow h g y l :
  wf h g -> Forall (fun p => (p < length (h ++ [y]))%nat) l ->
  wf (h ++ [y]) (mkGlobalPatterns (AllPatterns g ++ [length h]) l).
Proof.
  intros [Hall Hone] Hl. split; simpl; [|done].
  rewrite Forall_app, Forall_singleton, length_app. simpl. split; [|lia].
  eapply Forall_impl; [exact Hall|]. simpl. lia.
Qed.

Lemma detect_one_to_n_wf h y l acc :
  Forall (fun p => (p < length h)%nat) acc ->
  Forall (fun p => (p < length (h ++ [y]))%nat) (detect_one_to_n (length h) l acc).
Proof.
  intros Hacc. rewrite detect_one_to_n_spec, Forall_app, length_app. simpl. split.
  - eapply Forall_impl; [exact Hacc|]. simpl. lia.
  - apply Forall_replicate. lia.
Qed.

Lemma occurrences_fresh h l :
  Forall (fun p => (p < length h)%nat) l -> occurrences (length h) l = 0%nat.
Proof.
  unfold occurrences. induction 1 as [|p l Hp _ IH]; [done|].
  rewrite filter_cons, decide_False by lia. done.
Qed.

Lemma occurrences_app p l1 l2 :
  occurrences p (l1 ++ l2) = (occurrences p l1 + occurrences p l2)%nat.
Proof. unfold occurrences. by rewrite filter_app, length_app. Qed.

Lemma occurrences_replicate p k : occurrences p (replicate k p) = k.
Proof.
  unfold occurrences. induction k as [|k IH]; [done|].
  simpl. rewrite filter_cons, decide_True by done. simpl. by rewrite IH.
Qed.

(** The pairs of a map that pass the fan-out test. *)
Lemma qualifying_filter s v n :
  qualifying s v n <-> (v, n) ∈ one_to_n_pairs s.
Proof.
  unfold qualifying, one_to_n_pairs, is_one_to_n.
  rewrite list_elem_of_filter, elem_of_map_to_list. simpl.
  rewrite Z.ltb_lt. tauto.
Qed.

Lemma qualifying_some s :
  (exists v n, qualifying s v n) <-> (0 < length (one_to_n_pairs s))%nat.
Proof.
  split.
  - intros (v & n & Hq). apply qualifying_filter in Hq.
    destruct (one_to_n_pairs s); [by apply elem_of_nil in Hq | simpl; lia].
  - destruct (one_to_n_pairs s) as [|[v n] l] eqn:E; simpl; [lia|].
    intros _. exists v, n. apply qualifying_filter. rewrite E. left.
Qed.

Lemma NoDup_all_equal_length {A} (l : list A) (a : A) :
  NoDup l -> a ∈ l -> (forall b, b ∈ l -> b = a) -> length l = 1%nat.
Proof.
  intros Hnd Ha Hall. destruct l as [|x [|y l]]; [by apply elem_of_nil in Ha|done|].
  exfalso. assert (x = a) as -> by (apply Hall; left).
  assert (y = a) as -> by (apply Hall; right; left).
  apply NoDup_cons in Hnd as [Hnot _]. apply Hnot. left.
Qed.

Lemma qualifying_one s v n :
  qualifying s v n ->
  (forall v' n', qualifying s v' n' -> v' = v) ->
  length (one_to_n_pairs s) = 1%nat.
Proof.
  intros Hq Huniq. apply (NoDup_all_equal_length _ (v, n)).
  - apply NoDup_filter, NoDup_map_to_list.
  - by apply qualifying_filter.
  - intros [v' n'] Hin. apply qualifying_filter in Hin.
    pose proof (Huniq v' n' Hin) as ->.
    destruct Hin as [Hin _], Hq as [Hq _]. congruence.
Qed.

Lemma occurrences_pos p l : (0 < occurrences p l)%nat <-> p ∈ l.
Proof.
  unfold occurrences. induction l as [|q l IH].
  - simpl. split; [lia | by intros ?%elem_of_nil].
  - rewrite filter_cons, elem_of_cons. destruct (decide (q = p)) as [->|Hne].
    + simpl. split; [auto | lia].
    + rewrite IH. split; [auto | intros [->|?]; done].
Qed.

Lemma first_match_elem h ps s r p : first_match h ps s r = Some p -> p ∈ ps.
Proof.
  induction ps as [|q ps IH]; simpl; [done|].
  destruct (h !! q) as [x|]; [destruct (same_signature x s r)|].
  - intros [= ->]. left.
  - intros H. right. auto.
  - intros H. right. auto.
Qed.

Lemma table_inv_zero : table_inv [] noPatterns.
Proof.
  split; [split; constructor|]. intros p x Hp. by apply elem_of_nil in Hp.
Qed.

Lemma table_inv_add h g c s r h' g' e :
  table_inv h g -> addPattern h g c s r = Some (h', g', e) -> table_inv h' g'.
Proof.
  intros [Hwf Hinv] Hadd.
  destruct (first_match h (AllPatterns g) s r) as [p|] eqn:Hm.
  - destruct (addPattern_matched h g c s r p Hwf Hm) as (x & Hx & Hs & Hr & E).
    rewrite E in Hadd. injection Hadd as <- <- <-. split.
    + destruct Hwf as [Ha Ho]. split; rewrite length_insert; done.
    + intros q y Hq Hy. destruct (decide (q = p)) as [->|Hne].
      * rewrite list_lookup_insert_eq in Hy by (by eapply lookup_lt_Some).
        injection Hy as <-. simpl. rewrite <- Hs. by apply Hinv.
      * rewrite list_lookup_insert_ne in Hy by done. by apply Hinv.
  - rewrite (addPattern_new h g c s r Hwf Hm) in Hadd. injection Hadd as <- <- <-.
    split; [apply wf_grow; [done|]; apply detect_one_to_n_wf, Hwf|].
    simpl. intros q y Hq Hy. rewrite detect_one_to_n_spec, occurrences_app.
    apply elem_of_app in Hq as [Hq|Hq].
    + assert (q < length h)%nat as Hlt.
      { destruct Hwf as [Ha _]. rewrite Forall_forall in Ha. by apply Ha. }
      rewrite lookup_app_l in Hy by done.
      rewrite (Hinv q y Hq Hy).
      assert (occurrences q (replicate (length (filter (fun kv => is_one_to_n kv = true)
                (map_to_list s))) (length h)) = 0%nat) as ->; [|lia].
      unfold occurrences. generalize (length (filter (fun kv => is_one_to_n kv = true)
                (map_to_list s))). intros k.
      induction k as [|k IH]; [done|]. simpl.
      rewrite filter_cons, decide_False by lia. exact IH.
    + apply list_elem_of_singleton in Hq as ->.
      rewrite list_lookup_middle in Hy by done. injection Hy as <-. simpl.
      rewrite (occurrences_fresh h) by apply Hwf.
      by rewrite occurrences_replicate.
Qed.

Lemma built_inv h g : built h g -> table_inv h g.
Proof.
  induction 1 as [|h g c s r h' g' e _ IH Hadd]; [apply table_inv_zero|].
  by eapply table_inv_add.
Qed.

(** C1, as stated, fails: a new pattern whose send signature has two
    qualifying pairs (one rank sends to 200 peers, another one to 300) is
    appended twice to [OneToN]. *)
Lemma fan_out_once_counterexample :
  ~ fan_out_once [] noPatterns 0 {[ 200 := 1; 300 := 1 ]} ∅.
Proof.
  intros H.
  specialize (H [mkCallPattern {[ 200 := 1; 300 := 1 ]} ∅ 1 [0]]
                (mkGlobalPatterns [0%nat] [0%nat; 0%nat]) None 200 1).
  assert (occurrences (resulting_pattern [] noPatterns {[ 200 := 1; 300 := 1 ]} ∅)
            [0%nat; 0%nat] = 2%nat) as E by (vm_compute; reflexivity).
  simpl in H. rewrite E in H.
  assert (2 = 1)%nat; [|lia].
  apply H; [vm_compute; reflexivity|].
  split; [vm_compute; reflexivity | vm_compute; reflexivity].
Qed.

(** C1 (amended): on a table built by [addPattern] from the zero value,
    [addPattern] succeeds, and the pattern the record ends up in, new or
    matched, is in the fan-out index exactly when a pair of the send
    signature qualifies, and occurs there exactly once when exactly one pair
    qualifies.  The index is written only when a pattern is created: a match
    leaves [OneToN] as it is. *)
Theorem addPattern_fan_out h g c s r :
  built h g ->
  exists h' g',
    addPattern h g c s r = Some (h', g', None) /\
    ((exists v n, qualifying s v n) <-> resulting_pattern h g s r ∈ OneToN g') /\
    (forall v n, qualifying s v n ->
       (forall v' n', qualifying s v' n' -> v' = v) ->
       occurrences (resulting_pattern h g s r) (OneToN g') = 1%nat) /\
    (is_Some (first_match h (AllPatterns g) s r) -> OneToN g' = OneToN g).
Proof.
  intros Hbuilt. destruct (built_inv h g Hbuilt) as [Hwf Hinv].
  unfold resulting_pattern.
  destruct (first_match h (AllPatterns g) s r) as [p|] eqn:Hm; simpl.
  - destruct (addPattern_matched h g c s r p Hwf Hm) as (x & Hx & Hs & _ & ->).
    eexists _, _. split; [reflexivity|].
    pose proof (Hinv p x (first_match_elem _ _ _ _ _ Hm) Hx) as Hocc.
    rewrite Hs in Hocc. split; [|split; [|done]].
    + by rewrite qualifying_some, <- Hocc, occurrences_pos.
    + intros v n Hq Huniq. rewrite Hocc. by eapply qualifying_one.
  - rewrite (addPattern_new h g c s r Hwf Hm).
    eexists _, _. split; [reflexivity|]. simpl.
    assert (occurrences (length h)
              (detect_one_to_n (length h) (map_to_list s) (OneToN g))
            = length (one_to_n_pairs s)) as Hocc.
    { rewrite detect_one_to_n_spec, occurrences_app.
      rewrite (occurrences_fresh h) by apply Hwf.
      by rewrite occurrences_replicate. }
    split; [|split; [|intros [? [=]]]].
    + by rewrite qualifying_some, <- Hocc, occurrences_pos.
    + intros v n Hq Huniq. rewrite Hocc. by eapply qualifying_one.
Qed.

Lemma addPattern_fan_out_witness :
  built [mkCallPattern {[ 0 := 299; 300 := 1 ]} ∅ 1 [7]]
        (mkGlobalPatterns [0%nat] [0%nat]) /\
  exists h' g',
    addPattern [mkCallPattern {[ 0 := 299; 300 := 1 ]} ∅ 1 [7]]
               (mkGlobalPatterns [0%nat] [0%nat]) 8 {[ 0 := 299; 300 := 1 ]} ∅
      = Some (h', g', None) /\
    occurrences 0%nat (OneToN g') = 1%nat.
Proof.
  assert (built [mkCallPattern {[ 0 := 299; 300 := 1 ]} ∅ 1 [7]]
                (mkGlobalPatterns [0%nat] [0%nat])) as Hb.
  { apply (built_add [] noPatterns 7 {[ 0 := 299; 300 := 1 ]} ∅ _ _ None built_zero).
    vm_compute. reflexivity. }
  split; [exact Hb|].
  destruct (addPattern_fan_out _ _ 8 {[ 0 := 299; 300 := 1 ]} ∅ Hb)
    as (h' & g' & Hadd & _ & Hone & _).
  exists h', g'. split; [exact Hadd|].
  apply (Hone 300 1).
  - split; [vm_compute; reflexivity | vm_compute; reflexivity].
  - intros v' n' [Hl Hlt].
    destruct (decide (v' = 300)) as [|Hne]; [done|]. exfalso.
    destruct (decide (v' = 0)) as [->|H0].
    + rewrite lookup_insert_eq in Hl. injection Hl as <-.
      revert Hlt. vm_compute. discriminate.
    + rewrite lookup_insert_ne in Hl by done.
      rewrite lookup_singleton_ne in Hl by done. done.
Defined.

(** C2: on a well-formed table without an entry for [(s, r)], two records
    with that signature end up in one pattern, appended at the end of the
    table, with count 2 and the call numbers in submission order; the stored
    patterns are unchanged.  A third record whose signature is different (and
    not in the table either) appends a second pattern with count 1 and its
    own call number, and leaves the first one untouched. *)
Theorem addPattern_dedup h g c1 c2 c3 s r s' r' :
  wf h g ->
  first_match h (AllPatterns g) s r = None ->
  first_match h (AllPatterns g) s' r' = None ->
  (s', r') <> (s, r) ->
  exists g1 g3,
    addPattern h g c1 s r = Some (h ++ [mkCallPattern s r 1 [c1]], g1, None) /\
    addPattern (h ++ [mkCallPattern s r 1 [c1]]) g1 c2 s r =
      Some (h ++ [mkCallPattern s r 2 [c1; c2]], g1, None) /\
    addPattern (h ++ [mkCallPattern s r 2 [c1; c2]]) g1 c3 s' r' =
      Some (h ++ [mkCallPattern s r 2 [c1; c2]; mkCallPattern s' r' 1 [c3]],
            g3, None) /\
    AllPatterns g1 = AllPatterns g ++ [length h] /\
    AllPatterns g3 = AllPatterns g ++ [length h; S (length h)].
Proof.
  intros Hwf Hno Hno' Hdiff.
  set (x1 := mkCallPattern s r 1 [c1]). set (x2 := mkCallPattern s r 2 [c1; c2]).
  set (g1 := mkGlobalPatterns (AllPatterns g ++ [length h])
               (detect_one_to_n (length h) (map_to_list s) (OneToN g))).
  assert (wf (h ++ [x1]) g1) as Hwf1.
  { apply wf_grow; [done|]. apply detect_one_to_n_wf, Hwf. }
  assert (first_match (h ++ [x1]) (AllPatterns g1) s r = Some (length h)) as Hm1.
  { simpl. rewrite first_match_snoc, first_match_grow, Hno by apply Hwf.
    simpl. rewrite list_lookup_middle by done. simpl.
    unfold x1. by rewrite same_signature_refl. }
  assert (wf (h ++ [x2]) g1) as Hwf2.
  { destruct Hwf1 as [Ha Ho]. split; rewrite length_app in *; done. }
  assert (first_match (h ++ [x2]) (AllPatterns g1) s' r' = None) as Hm2.
  { simpl. rewrite first_match_snoc, first_match_grow, Hno' by apply Hwf.
    simpl. rewrite list_lookup_middle by done. simpl.
    destruct (same_signature x2 s' r') eqn:E; [|done].
    apply same_signature_spec in E as [E1 E2]. simpl in *. congruence. }
  exists g1, (mkGlobalPatterns (AllPatterns g1 ++ [length (h ++ [x2])])
               (detect_one_to_n (length (h ++ [x2])) (map_to_list s') (OneToN g1))).
  split; [by apply addPattern_new|]. split; [|split].
  - destruct (addPattern_matched _ _ c2 _ _ _ Hwf1 Hm1) as (x & Hx & _ & _ & ->).
    rewrite list_lookup_middle in Hx by done. injection Hx as <-.
    replace (length h) with (length h + 0)%nat at 1 by lia.
    rewrite insert_app_r. done.
  - rewrite (addPattern_new _ _ c3 _ _ Hwf2 Hm2). by rewrite <- app_assoc.
  - simpl. split; [done|]. rewrite <- app_assoc, length_app. simpl.
    by rewrite Nat.add_1_r.
Qed.

Lemma addPattern_dedup_witness :
  exists g1 g3,
    addPattern [] noPatterns 0 {[ 3 := 4 ]} {[ 3 := 4 ]} =
      Some ([mkCallPattern {[ 3 := 4 ]} {[ 3 := 4 ]} 1 [0]], g1, None) /\
    addPattern [mkCallPattern {[ 3 := 4 ]} {[ 3 := 4 ]} 1 [0]] g1 1
        {[ 3 := 4 ]} {[ 3 := 4 ]} =
      Some ([mkCallPattern {[ 3 := 4 ]} {[ 3 := 4 ]} 2 [0; 1]], g1, None) /\
    addPattern [mkCallPattern {[ 3 := 4 ]} {[ 3 := 4 ]} 2 [0; 1]] g1 2
        {[ 3 := 4 ]} {[ 2 := 4 ]} =
      Some ([mkCallPattern {[ 3 := 4 ]} {[ 3 := 4 ]} 2 [0; 1];
             mkCallPattern {[ 3 := 4 ]} {[ 2 := 4 ]} 1 [2]], g3, None) /\
    AllPatterns g1 = [0%nat] /\
    AllPatterns g3 = [0%nat; 1%nat].
Proof.
  apply (addPattern_dedup [] noPatterns 0 1 2
           {[ 3 := 4 ]} {[ 3 := 4 ]} {[ 3 := 4 ]} {[ 2 := 4 ]}).
  - split; constructor.
  - reflexivity.
  - reflexivity.
  - intros E. apply (f_equal (fun p : gmap Z Z * gmap Z Z => p.2 !! 3)) in E.
    revert E. vm_compute. discriminate.
Defined.

End PatternTable.

Section Statistics.
Import Profiler.

(** No statement of the loop body writes the two histograms of the minima
    excluding zero. *)
Lemma accumulate_not_zero_mins cs ci :
  SendNotZeroMins (accumulate cs ci) = SendNotZeroMins cs /\
  RecvNotZeroMins (accumulate cs ci) = RecvNotZeroMins cs.
Proof. split; reflexivity. Qed.

Lemma ParseCountFiles_loop_not_zero_mins LookupCall f1 f2 thr n :
  forall i h cs h' cs' e,
    ParseCountFiles_loop LookupCall f1 f2 thr n i h cs = Some (h', cs', e) ->
    SendNotZeroMins cs' = SendNotZeroMins cs /\
    RecvNotZeroMins cs' = RecvNotZeroMins cs.
Proof.
  induction n as [|n IH]; intros i h cs h' cs' e; simpl.
  - intros [= <- <- <-]. done.
  - destruct (LookupCall f1 f2 i thr) as [ci|err]; [|intros [= <- <- <-]; done].
    destruct (addPattern _ _ _ _ _) as [[[h1 g1] [err|]]|]; [| |done].
    + intros [= <- <- <-]. done.
    + intros Hloop. apply IH in Hloop. exact Hloop.
Qed.

(** The two histograms are empty at the end of every run. *)
Lemma ParseCountFiles_not_zero_mins_empty LookupCall f1 f2 thr numCalls h cs e :
  ParseCountFiles LookupCall f1 f2 thr numCalls = Some (h, cs, e) ->
  SendNotZeroMins cs = ∅ /\ RecvNotZeroMins cs = ∅.
Proof. apply ParseCountFiles_loop_not_zero_mins. Qed.

(** C3 fails on the code.  On a profile of one call whose minima excluding
    zero are 5 (send) and 7 (receive), [ParseCountFiles] succeeds and leaves
    [SendNotZeroMins] and [RecvNotZeroMins] without the keys 5 and 7: the
    counts went to [SendMins] and [RecvMins]. *)
Theorem ParseCountFiles_not_zero_mins :
  exists h cs,
    ParseCountFiles Inputs.lookup_one_call "send.txt" "recv.txt" 200 1
      = Some (h, cs, None) /\
    SendNotZeroMins cs !! 5 = None /\
    RecvNotZeroMins cs !! 7 = None /\
    SendMins cs = {[ 0 := 1; 5 := 1 ]} /\
    RecvMins cs = {[ 0 := 1; 7 := 1 ]}.
Proof.
  eexists _, _. split; [vm_compute; reflexivity|].
  repeat split; vm_compute; reflexivity.
Qed.

End Statistics.

Section ReportOrder.
Import Profiler.

Lemma valid_range_stored : valid_range Inputs.range_stored.
Proof. intros m. reflexivity. Qed.

Lemma valid_range_reversed : valid_range Inputs.range_reversed.
Proof. intros m. apply reverse_Permutation. Qed.

(** C4 fails on the code.  For the statistics of a profile of two calls,
    two legal orders of [range] give two different reports, both written
    without error; in one of them the keys of a histogram come out in
    descending order.  [ConvertIntMapToOrderedArrayByValue], which no
    statement of the report calls, orders by value: its keys are not
    ascending either. *)
Theorem report_depends_on_range_order :
  exists h cs,
    ParseCountFiles Inputs.lookup_two_calls "send.txt" "recv.txt" 200 2
      = Some (h, cs, None) /\
    valid_range Inputs.range_stored /\
    valid_range Inputs.range_reversed /\
    emitted_keys Inputs.range_stored (SendMaxs cs) = [30; 10] /\
    emitted_keys Inputs.range_reversed (SendMaxs cs) = [10; 30] /\
    (writeCountStatsToFile Inputs.range_stored 2 200 cs newFile).2 = None /\
    (writeCountStatsToFile Inputs.range_reversed 2 200 cs newFile).2 = None /\
    String.eqb
      (contents (writeCountStatsToFile Inputs.range_stored 2 200 cs newFile).1)
      (contents (writeCountStatsToFile Inputs.range_reversed 2 200 cs newFile).1)
      = false /\
    map Format.Key
      (Format.ConvertIntMapToOrderedArrayByValue Inputs.range_stored
         {[ 1 := 5; 2 := 3 ]}) = [2; 1].
Proof.
  eexists _, _. split; [vm_compute; reflexivity|].
  split; [exact valid_range_stored|]. split; [exact valid_range_reversed|].
  repeat split; vm_compute; reflexivity.
Qed.

End ReportOrder.





Section ValidationFiles.
Import Profiler.

Lemma non_empty_line_ne line : non_empty_line line = true -> String.eqb line "" = false.
Proof.
  unfold non_empty_line. intros H. apply andb_true_iff in H as [H _].
  by apply negb_true_iff in H.
Qed.

Lemma keep_line_skip line sc rc :
  non_empty_line line = false -> keep_line line sc rc = Some (sc, rc).
Proof. unfold keep_line. by intros ->. Qed.

Lemma keep_line_first line :
  non_empty_line line = true -> keep_line line "" "" = Some (line, ""%string).
Proof. unfold keep_line. by intros ->. Qed.

Lemma keep_line_second line sc :
  non_empty_line line = true -> String.eqb sc "" = false ->
  keep_line line sc "" = Some (sc, line).
Proof. unfold keep_line. by intros -> ->. Qed.

Lemma keep_line_third line sc rc :
  non_empty_line line = true -> String.eqb sc "" = false -> String.eqb rc "" = false ->
  keep_line line sc rc = None.
Proof. unfold keep_line. by intros -> -> ->. Qed.

Abbreviation kept lines last :=
  (filter (fun line => non_empty_line line = true) (lines ++ [last])).

(** The loop once both variables are set. *)
Lemma read_counters_full path last lines sc rc :
  String.eqb sc "" = false -> String.eqb rc "" = false ->
  read_counters path lines (AtEOF last) sc rc =
    match kept lines last with
    | [] => inl (sc, rc)
    | _ => inr "invalid file format"%string
    end.
Proof.
  intros Hsc Hrc. induction lines as [|line lines IH]; simpl.
  - rewrite filter_cons, filter_nil. destruct (non_empty_line last) eqn:E.
    + rewrite decide_True by done. by rewrite keep_line_third.
    + rewrite decide_False by congruence. by rewrite keep_line_skip.
  - rewrite filter_cons. destruct (non_empty_line line) eqn:E.
    + rewrite decide_True by done. by rewrite keep_line_third.
    + rewrite decide_False by congruence. by rewrite keep_line_skip.
Qed.

(** The loop once the send counters are set. *)
Lemma read_counters_half path last lines sc :
  String.eqb sc "" = false ->
  read_counters path lines (AtEOF last) sc "" =
    match kept lines last with
    | [] => inl (sc, ""%string)
    | [l] => inl (sc, l)
    | _ => inr "invalid file format"%string
    end.
Proof.
  intros Hsc. induction lines as [|line lines IH]; simpl.
  - rewrite filter_cons, filter_nil. destruct (non_empty_line last) eqn:E.
    + rewrite decide_True by done. by rewrite keep_line_second.
    + rewrite decide_False by congruence. by rewrite keep_line_skip.
  - rewrite filter_cons. destruct (non_empty_line line) eqn:E.
    + rewrite decide_True by done. rewrite keep_line_second by done.
      rewrite read_counters_full by auto using non_empty_line_ne.
      by destruct (kept lines last).
    + rewrite decide_False by congruence. by rewrite keep_line_skip.
Qed.

(** The loop from its start. *)
Lemma read_counters_start path last lines :
  read_counters path lines (AtEOF last) "" "" =
    match kept lines last with
    | [] => inl (""%string, ""%string)
    | [l] => inl (l, ""%string)
    | [l1; l2] => inl (l1, l2)
    | _ => inr "invalid file format"%string
    end.
Proof.
  induction lines as [|line lines IH]; simpl.
  - rewrite filter_cons, filter_nil. destruct (non_empty_line last) eqn:E.
    + rewrite decide_True by done. by rewrite keep_line_first.
    + rewrite decide_False by congruence. by rewrite keep_line_skip.
  - rewrite filter_cons. destruct (non_empty_line line) eqn:E.
    + rewrite decide_True by done. rewrite keep_line_first by done.
      rewrite read_counters_half by auto using non_empty_line_ne.
      by destruct (kept lines last) as [|? [|? ?]].
    + rewrite decide_False by congruence. by rewrite keep_line_skip.
Qed.

(** C7: on a file that opens and is read to its end,
    [getCountersFromValidationFile] succeeds exactly when the file has two
    non-empty lines, and then returns them without their line feed and
    trailing spaces; it fails with "invalid file format" when there are
    three or more, and with "unable to load send and receive counters"
    when there are fewer than two. *)
Theorem getCountersFromValidationFile_spec
    (Open : string -> Reader + string) (path data : string) :
  Open path = inl (NewReader data) ->
  getCountersFromValidationFile Open path =
    match non_empty_lines data with
    | [l1; l2] => inl (stripped l1, stripped l2)
    | _ :: _ :: _ :: _ => inr "invalid file format"%string
    | _ => inr ("unable to load send and receive counters from " +:+ path)
    end.
Proof.
  intros Hopen. unfold getCountersFromValidationFile. rewrite Hopen. simpl.
  rewrite read_counters_start. unfold non_empty_lines.
  destruct (kept (split_lines data).1 (split_lines data).2)
    as [|l1 [|l2 [|l3 ls]]] eqn:E; simpl; try done.
  - by destruct (String.eqb l1 "").
  - assert (l1 ∈ l1 :: l2 :: []) as H1 by left.
    assert (l2 ∈ l1 :: l2 :: []) as H2 by (right; left).
    rewrite <- E in H1, H2.
    apply list_elem_of_filter in H1 as [H1 _], H2 as [H2 _].
    by rewrite (non_empty_line_ne _ H1), (non_empty_line_ne _ H2).
Qed.

Lemma getCountersFromValidationFile_spec_witness :
  getCountersFromValidationFile Inputs.dir_Open "out/validation_data-pid7-rank0-call0.txt"
  = inl ("1 2", "3 4")%string.
Proof.
  exact (getCountersFromValidationFile_spec Inputs.dir_Open
           "out/validation_data-pid7-rank0-call0.txt"
           ("1 2 " +:+ nl +:+ "3 4 " +:+ nl) eq_refl).
Defined.

Lemma append_assoc (a b c : string) : (a +:+ b) +:+ c = a +:+ b +:+ c.
Proof.
  induction a as [|x a IH]; [done|].
  change (String x ((a +:+ b) +:+ c) = String x (a +:+ b +:+ c)). by rewrite IH.
Qed.

Lemma append_empty_r (a : string) : a +:+ "" = a.
Proof.
  induction a as [|x a IH]; [done|].
  change (String x (a +:+ "") = String x a). by rewrite IH.
Qed.

Lemma contains_head x rest : contains (x +:+ rest) x.
Proof. by exists ""%string, rest. Qed.

Lemma contains_last x : contains x x.
Proof. exists ""%string, ""%string. change (x = x +:+ ""). by rewrite append_empty_r. Qed.

Lemma contains_skip pre msg x : contains msg x -> contains (pre +:+ msg) x.
Proof.
  intros (before & after & ->). exists (pre +:+ before), after.
  by rewrite append_assoc.
Qed.

Ltac find_in_message :=
  repeat first [apply contains_head | apply contains_last | apply contains_skip].

Lemma send_mismatch_contains f s1 s2 r1 r2 :
  let msg := send_mismatch f s1 s2 r1 r2 in
  contains msg s1 /\ contains msg s2 /\ contains msg r1 /\ contains msg r2 /\
  contains msg (Filepath.Base f).
Proof. unfold send_mismatch. repeat split; find_in_message. Qed.

Lemma recv_mismatch_contains f s1 s2 r1 r2 :
  let msg := recv_mismatch f s1 s2 r1 r2 in
  contains msg s1 /\ contains msg s2 /\ contains msg r1 /\ contains msg r2 /\
  contains msg (Filepath.Base f).
Proof. unfold recv_mismatch. repeat split; find_in_message. Qed.

Section ValidateLoop.

Variables (Open : string -> Reader + string)
          (FindCallRankCounters : string -> Z -> Z -> Z -> (string * string) + string)
          (jobid : Z) (dir : string).

Abbreviation passes := (file_matches Open FindCallRankCounters jobid dir).
Abbreviation run_files := (validate_files Open FindCallRankCounters jobid dir).

Lemma validate_files_pass f files :
  passes f -> run_files (f :: files) = run_files files.
Proof.
  intros (id & rank & call & sc & rc & Hinfo & Hload & Hfind). simpl.
  rewrite Hinfo, Hload, Hfind. by rewrite !String.eqb_refl.
Qed.

Lemma validate_files_all_pass files : Forall passes files -> run_files files = None.
Proof.
  induction 1 as [|f files Hf _ IH]; [done|].
  by rewrite validate_files_pass.
Qed.

Lemma validate_files_mismatch before f after id rank call s1 r1 s2 r2 :
  Forall passes before ->
  getInfoFromFilename f = inl (id, rank, call) ->
  getCountersFromValidationFile Open f = inl (s1, r1) ->
  FindCallRankCounters dir jobid rank call = inl (s2, r2) ->
  s1 <> s2 \/ r1 <> r2 ->
  exists msg,
    run_files (before ++ f :: after) = Some msg /\
    contains msg s1 /\ contains msg s2 /\ contains msg r1 /\ contains msg r2 /\
    contains msg (Filepath.Base f).
Proof.
  intros Hbefore Hinfo Hload Hfind Hdiff.
  induction Hbefore as [|f0 before Hf0 _ IH]; simpl.
  - rewrite Hinfo, Hload, Hfind.
    destruct (String.eqb s1 s2) eqn:Es; simpl.
    + apply String.eqb_eq in Es.
      destruct (String.eqb r1 r2) eqn:Er; simpl.
      * apply String.eqb_eq in Er. tauto.
      * eexists. split; [reflexivity|]. apply recv_mismatch_contains.
    + eexists. split; [reflexivity|]. apply send_mismatch_contains.
  - change (exists msg, run_files (f0 :: before ++ f :: after) = Some msg /\
      contains msg s1 /\ contains msg s2 /\ contains msg r1 /\ contains msg r2 /\
      contains msg (Filepath.Base f)).
    rewrite validate_files_pass by done. exact IH.
Qed.

End ValidateLoop.

(** C8: when the validation files are found, [Validate] returns no error if
    every file passes; and at the first file whose send or receive counters
    differ from the ones of the lookup, it returns an error whose message
    contains the expected and the actual send counters, the expected and
    the actual receive counters, and the base name of the file. *)
Theorem Validate_spec
    (ReadDir : string -> list string + string)
    (Open : string -> Reader + string)
    (Join : string -> string -> string)
    (FindCallRankCounters : string -> Z -> Z -> Z -> (string * string) + string)
    (jobid pid : Z) (dir : string) (files : list string) :
  getValidationFiles ReadDir Join dir (Strconv.Itoa pid) = inl files ->
  (Forall (file_matches Open FindCallRankCounters jobid dir) files ->
   Validate ReadDir Open Join FindCallRankCounters jobid pid dir = None) /\
  (forall before f after id rank call s1 r1 s2 r2,
     files = before ++ f :: after ->
     Forall (file_matches Open FindCallRankCounters jobid dir) before ->
     getInfoFromFilename f = inl (id, rank, call) ->
     getCountersFromValidationFile Open f = inl (s1, r1) ->
     FindCallRankCounters dir jobid rank call = inl (s2, r2) ->
     s1 <> s2 \/ r1 <> r2 ->
     exists msg,
       Validate ReadDir Open Join FindCallRankCounters jobid pid dir = Some msg /\
       contains msg s1 /\ contains msg s2 /\ contains msg r1 /\ contains msg r2 /\
       contains msg (Filepath.Base f)).
Proof.
  intros Hfiles. unfold Validate. rewrite Hfiles. split.
  - apply validate_files_all_pass.
  - intros before f after id rank call s1 r1 s2 r2 -> Hbefore Hinfo Hload Hfind Hdiff.
    by apply (validate_files_mismatch _ _ _ _ before f after id rank call s1 r1 s2 r2).
Qed.

Lemma Validate_spec_witness :
  Validate Inputs.dir_ReadDir Inputs.dir_Open Inputs.dir_Join
    Inputs.dir_FindCallRankCounters 0 7 "out" = None /\
  exists msg,
    Validate Inputs.dir_ReadDir Inputs.dir_Open Inputs.dir_Join
      Inputs.other_FindCallRankCounters 0 7 "out" = Some msg /\
    contains msg "1 2" /\ contains msg "1 5" /\
    contains msg "validation_data-pid7-rank0-call0.txt".
Proof.
  split.
  - apply (Validate_spec Inputs.dir_ReadDir Inputs.dir_Open Inputs.dir_Join
             Inputs.dir_FindCallRankCounters 0 7 "out"
             ["out/validation_data-pid7-rank0-call0.txt"%string] eq_refl).
    apply Forall_singleton. exists 7, 0, 0, "1 2"%string, "3 4"%string.
    repeat split; vm_compute; reflexivity.
  - destruct (Validate_spec Inputs.dir_ReadDir Inputs.dir_Open Inputs.dir_Join
             Inputs.other_FindCallRankCounters 0 7 "out"
             ["out/validation_data-pid7-rank0-call0.txt"%string] eq_refl)
      as [_ Hmis].
    destruct (Hmis [] "out/validation_data-pid7-rank0-call0.txt"%string []
                7 0 0 "1 2"%string "3 4"%string "1 5"%string "3 4"%string)
      as (msg & Hv & H1 & H2 & _ & _ & Hb);
      [reflexivity | constructor | vm_compute; reflexivity
      | vm_compute; reflexivity | vm_compute; reflexivity
      | left; discriminate |].
    exists msg. repeat split; assumption.
Defined.

End ValidationFiles.


Section SpecCodec.
Import Strings Strconv Notation.

(** *** Decimal digits: [pretty] and [digits_value] are inverse *)

Abbreviation digits_only s :=
  (Forall (fun c => is_Some (digit_of c)) (list_ascii_of_string s)).

Lemma list_ascii_of_string_app s1 s2 :
  list_ascii_of_string (s1 +:+ s2)
  = list_ascii_of_string s1 ++ list_ascii_of_string s2.
Proof.
  induction s1 as [|c s1 IH]; [done|].
  change (c :: list_ascii_of_string (s1 +:+ s2)
          = c :: list_ascii_of_string s1 ++ list_ascii_of_string s2).
  by rewrite IH.
Qed.

Lemma digits_value_app s1 : forall acc s2,
  digits_value acc (s1 +:+ s2) =
  match digits_value acc s1 with
  | Some v => digits_value v s2
  | None => None
  end.
Proof.
  induction s1 as [|c s1 IH]; intros acc s2; [done|].
  change (digits_value acc (String c (s1 +:+ s2))
          = match digits_value acc (String c s1) with
            | Some v => digits_value v s2
            | None => None
            end).
  simpl. destruct (digit_of c); [apply IH | done].
Qed.

Lemma digit_of_pretty_N_char n :
  (n < 10)%N -> digit_of (pretty_N_char n) = Some (Z.of_N n).
Proof.
  intros H. rewrite <- (N2Nat.id n) in *.
  generalize dependent (N.to_nat n). intros k Hk.
  do 10 (destruct k as [|k]; [reflexivity|]). lia.
Qed.

Lemma pretty_N_go_app x : forall s, pretty_N_go x s = pretty_N_go x "" +:+ s.
Proof.
  induction (N.lt_wf_0 x) as [x _ IH]; intros s.
  assert (x = 0 \/ 0 < x)%N as [->|Hpos] by lia; [by rewrite !pretty_N_go_0|].
  rewrite (pretty_N_go_step x s), (pretty_N_go_step x "") by done.
  rewrite (IH (x `div` 10)%N) by (by apply N.div_lt).
  rewrite (IH (x `div` 10)%N ltac:(by apply N.div_lt) (String _ "")).
  by rewrite append_assoc.
Qed.

Lemma pretty_N_go_digits x : digits_only (pretty_N_go x "").
Proof.
  induction (N.lt_wf_0 x) as [x _ IH].
  assert (x = 0 \/ 0 < x)%N as [->|Hpos] by lia; [rewrite pretty_N_go_0; constructor|].
  rewrite pretty_N_go_step, pretty_N_go_app by done.
  rewrite list_ascii_of_string_app. apply Forall_app. split.
  - apply IH. by apply N.div_lt.
  - apply Forall_singleton. rewrite digit_of_pretty_N_char; [done|].
    by apply N.mod_lt.
Qed.

Lemma digits_value_pretty_N_go x :
  digits_value 0 (pretty_N_go x "") = Some (Z.of_N x).
Proof.
  induction (N.lt_wf_0 x) as [x _ IH].
  assert (x = 0 \/ 0 < x)%N as [->|Hpos] by lia; [by rewrite pretty_N_go_0|].
  rewrite pretty_N_go_step, pretty_N_go_app by done.
  rewrite digits_value_app, IH by (by apply N.div_lt). simpl.
  rewrite digit_of_pretty_N_char by (by apply N.mod_lt).
  f_equal. rewrite (N.div_mod x 10) at 3 by done. lia.
Qed.

Lemma pretty_N_go_nonempty x : (0 < x)%N -> pretty_N_go x "" <> ""%string.
Proof.
  intros Hpos. rewrite pretty_N_go_step, pretty_N_go_app by done.
  destruct (pretty_N_go (x `div` 10) ""); discriminate.
Qed.

(** The decimal text of a non-negative integer. *)
Lemma pretty_nonneg z :
  0 <= z ->
  digits_only (pretty z) /\ pretty z <> ""%string /\ parse_id (pretty z) = Some z.
Proof.
  intros Hz. destruct z as [|p|p]; [| |lia].
  - split; [|split]; [|done|done].
    apply Forall_singleton. by eexists.
  - change (pretty (Z.pos p)) with (pretty_N_go (N.pos p) "").
    pose proof (pretty_N_go_nonempty (N.pos p) ltac:(lia)) as Hne.
    split; [apply pretty_N_go_digits|]. split; [done|].
    unfold parse_id. destruct (pretty_N_go (N.pos p) "") eqn:E; [done|].
    rewrite <- E. by rewrite digits_value_pretty_N_go.
Qed.

(** *** Splitting *)

Abbreviation free_of c0 s :=
  (Forall (fun c => c <> c0) (list_ascii_of_string s)).

Lemma prefix_other c0 sep' d s : d <> c0 -> String.prefix (String c0 sep') (String d s) = false.
Proof. intros H. simpl. by destruct (Ascii.ascii_dec c0 d) as [->|]. Qed.

Lemma prefix_same c0 sep' s :
  String.prefix (String c0 sep') (String c0 s) = String.prefix sep' s.
Proof. cbn [String.prefix]. by destruct (Ascii.ascii_dec c0 c0). Qed.

Lemma prefix_empty s : String.prefix "" s = true.
Proof. by destruct s. Qed.

Lemma Split_from_piece c0 sep' t : forall cur rest,
  free_of c0 t ->
  Split_from 0 cur (t +:+ rest) (String c0 sep')
  = Split_from 0 (cur +:+ t) rest (String c0 sep').
Proof.
  induction t as [|d t IH]; intros cur rest Hfree.
  - by rewrite append_empty_r.
  - apply Forall_cons in Hfree as [Hd Hfree].
    change (String d t +:+ rest) with (String d (t +:+ rest)).
    cbn [Split_from]. rewrite prefix_other by done.
    rewrite IH by done. by rewrite append_assoc.
Qed.

Lemma Split_piece c0 sep' t : free_of c0 t -> Split t (String c0 sep') = [t].
Proof.
  intros Hfree. unfold Split.
  rewrite <- (append_empty_r t) at 1. by rewrite Split_from_piece.
Qed.

Lemma digit_not_dash c : is_Some (digit_of c) -> c <> "-"%char.
Proof. intros [d Hd] ->. discriminate. Qed.

Lemma digit_not_comma c : is_Some (digit_of c) -> c <> ","%char.
Proof. intros [d Hd] ->. discriminate. Qed.

Lemma digits_free_of_dash s : digits_only s -> free_of "-"%char s.
Proof. intros H. eapply Forall_impl; [exact H|]. intros c. apply digit_not_dash. Qed.

Lemma digits_free_of_comma s : digits_only s -> free_of ","%char s.
Proof. intros H. eapply Forall_impl; [exact H|]. intros c. apply digit_not_comma. Qed.

Lemma Split_range a b :
  digits_only a -> digits_only b -> Split (a +:+ "-" +:+ b) "-" = [a; b].
Proof.
  intros Ha Hb. unfold Split.
  rewrite Split_from_piece by by apply digits_free_of_dash.
  change ("" +:+ a) with a.
  change ("-" +:+ b) with (String "-"%char b). cbn [Split_from].
  rewrite prefix_same, prefix_empty.
  f_equal. apply (Split_piece "-"%char ""). by apply digits_free_of_dash.
Qed.

Lemma Split_join t ts :
  Forall (fun t => free_of ","%char t) (t :: ts) ->
  Split (join ", " (t :: ts)) ", " = t :: ts.
Proof.
  revert t. induction ts as [|t2 ts IH]; intros t Hfree.
  - apply Forall_cons in Hfree as [Ht _]. by apply (Split_piece ","%char " ").
  - apply Forall_cons in Hfree as [Ht Hfree].
    change (join ", " (t :: t2 :: ts)) with (t +:+ ", " +:+ join ", " (t2 :: ts)).
    unfold Split. rewrite Split_from_piece by done.
    change ("" +:+ t) with t.
    change (", " +:+ join ", " (t2 :: ts))
      with (String ","%char (String " "%char (join ", " (t2 :: ts)))).
    cbn [Split_from].
    rewrite !prefix_same, prefix_empty.
    f_equal. by apply IH.
Qed.

(** *** Tokens and runs *)

Lemma expand_single a : expand a a = [a].
Proof.
  unfold expand. replace (a - a + 1) with 1 by lia. simpl. f_equal. lia.
Qed.

Lemma expand_cons x b : x < b -> expand x b = x :: expand (x + 1) b.
Proof.
  intros H. unfold expand.
  replace (Z.to_nat (b - x + 1)) with (S (Z.to_nat (b - (x + 1) + 1))) by lia.
  cbn [seq map]. f_equal; [lia|].
  rewrite <- seq_shift, map_map. apply map_ext. intros k. lia.
Qed.

Lemma token_free_of_comma a b :
  0 <= a -> 0 <= b -> free_of ","%char (token (a, b)).
Proof.
  intros Ha Hb. unfold token. simpl.
  destruct (pretty_nonneg a Ha) as (Hda & _ & _).
  destruct (pretty_nonneg b Hb) as (Hdb & _ & _).
  destruct (a =? b); [by apply digits_free_of_comma|].
  rewrite !list_ascii_of_string_app, !Forall_app.
  split; [by apply digits_free_of_comma|]. split; [|by apply digits_free_of_comma].
  apply Forall_singleton. discriminate.
Qed.

Lemma token_nonempty a b : 0 <= a -> token (a, b) <> ""%string.
Proof.
  intros Ha. unfold token. simpl.
  destruct (pretty_nonneg a Ha) as (_ & Hne & _).
  destruct (a =? b); [done|]. destruct (pretty a); [done | discriminate].
Qed.

Lemma decode_token_token a b :
  0 <= a <= b -> decode_token (token (a, b)) = Some (expand a b).
Proof.
  intros [Ha Hab]. unfold token, decode_token. simpl.
  destruct (pretty_nonneg a Ha) as (Hda & _ & Hpa).
  destruct (pretty_nonneg b ltac:(lia)) as (Hdb & _ & Hpb).
  destruct (Z.eqb_spec a b) as [->|Hne].
  - rewrite (Split_piece "-"%char "") by by apply digits_free_of_dash.
    by rewrite Hpb, expand_single.
  - rewrite Split_range by done. rewrite Hpa, Hpb.
    by destruct (Z.leb_spec a b); [|lia].
Qed.

Abbreviation run_ok := (fun r : Z * Z => 0 <= r.1 <= r.2).

Lemma decode_tokens_runs rs :
  Forall run_ok rs ->
  decode_tokens (map token rs) = Some (concat (map (fun r => expand r.1 r.2) rs)).
Proof.
  induction 1 as [|[a b] rs Hr _ IH]; [done|].
  cbn [map decode_tokens concat]. rewrite decode_token_token by done.
  by rewrite IH.
Qed.

Lemma strictly_ascending_cons x y rest :
  strictly_ascending (x :: y :: rest) = true ->
  x < y /\ strictly_ascending (y :: rest) = true.
Proof.
  cbn [strictly_ascending]. intros H. apply andb_true_iff in H as [H1 H2].
  split; [lia | done].
Qed.

Lemma runs_cons x rest :
  runs (x :: rest) =
  match runs rest with
  | (a, b) :: rs => if x + 1 =? a then (x, b) :: rs else (x, x) :: (a, b) :: rs
  | [] => [(x, x)]
  end.
Proof. reflexivity. Qed.

(** The runs of an ascending sequence of non-negative identifiers: every
    run is a non-empty interval, the first run starts at the first
    identifier, and the runs expand to the sequence. *)
Lemma runs_spec ids :
  Forall (fun x => 0 <= x) ids ->
  strictly_ascending ids = true ->
  Forall run_ok (runs ids) /\
  concat (map (fun r => expand r.1 r.2) (runs ids)) = ids /\
  match ids with
  | [] => runs ids = []
  | x :: _ => exists b rs, runs ids = (x, b) :: rs
  end.
Proof.
  induction ids as [|x rest IH]; intros Hpos Hasc; [done|].
  apply Forall_cons in Hpos as [Hx Hpos].
  destruct rest as [|y rest'].
  - simpl. split; [|split].
    + apply Forall_singleton. simpl. lia.
    + by rewrite expand_single.
    + by eexists _, _.
  - apply strictly_ascending_cons in Hasc as [Hxy Hasc].
    destruct (IH Hpos Hasc) as (Hok & Hcat & (b & rs & Hruns)).
    rewrite runs_cons. rewrite Hruns in Hok, Hcat |- *.
    apply Forall_cons in Hok as [Hyb Hok]. simpl in Hyb, Hcat.
    destruct (Z.eqb_spec (x + 1) y) as [Heq|Hne].
    + split; [|split].
      * apply Forall_cons. split; [simpl; lia | done].
      * cbn [map concat]. simpl. rewrite expand_cons by lia.
        rewrite Heq. simpl. by rewrite Hcat.
      * by eexists _, _.
    + split; [|split].
      * apply Forall_cons. split; [simpl; lia|].
        apply Forall_cons. split; [simpl; lia | done].
      * cbn [map concat]. simpl. rewrite expand_single. simpl. by rewrite Hcat.
      * by eexists _, _.
Qed.

(** The round trip on the codec of section 4.1: an ascending sequence of
    distinct non-negative identifiers is brought back by the decoder. *)
Lemma decompress_CompressIntArray ids :
  Forall (fun x => 0 <= x) ids ->
  strictly_ascending ids = true ->
  decompress (CompressIntArray ids) = Some ids.
Proof.
  intros Hpos Hasc. destruct (runs_spec ids Hpos Hasc) as (Hok & Hcat & Hhead).
  unfold CompressIntArray, decompress.
  destruct ids as [|x rest]; [by rewrite Hhead|].
  destruct Hhead as (b & rs & Hruns). rewrite Hruns in *.
  pose (tokens := map token ((x, b) :: rs)).
  assert (Forall (fun t => free_of ","%char t) tokens) as Hfree.
  { apply Forall_map. eapply Forall_impl; [exact Hok|].
    intros [a c] Hac. simpl in Hac. apply token_free_of_comma; lia. }
  pose proof (Split_join (token (x, b)) (map token rs) Hfree) as Hsplit.
  change (token (x, b) :: map token rs) with tokens in Hsplit.
  change (map token ((x, b) :: rs)) with tokens.
  assert (exists c s, join ", " tokens = String c s) as (c & s & Ejoin).
  { apply Forall_cons in Hok as [Hxb _]. simpl in Hxb.
    pose proof (token_nonempty x b ltac:(lia)) as Hne.
    unfold tokens. cbn [map join].
    destruct (token (x, b)) as [|c t]; [done|].
    destruct (map token rs); by eexists _, _. }
  rewrite Ejoin. rewrite <- Ejoin, Hsplit. unfold tokens.
  rewrite decode_tokens_runs by done. rewrite Hcat. by rewrite Hasc.
Qed.

End SpecCodec.

Section RankLists.
Import Logger.

Lemma sprintf_at_fits MAX_STRING_LEN kept text :
  (String.length (kept +:+ text) < MAX_STRING_LEN)%nat ->
  sprintf_at MAX_STRING_LEN kept text = Done (kept +:+ text).
Proof.
  intros H. unfold sprintf_at. apply Nat.ltb_lt in H. by rewrite H.
Qed.

(** The inner loop on a block [pre ++ x :: ys ++ 0 :: post], entered at the
    cell of [x], when no cell of [ys] is 0: every cell of [ys] is copied one
    place to the left, and the loop stops on the last cell of [ys]. *)
Lemma range_end_shift ys :
  forall pre x post fuel,
    Forall (fun y => y <> 0) ys ->
    (length ys <= fuel)%nat ->
    range_end fuel (pre ++ x :: ys ++ 0 :: post) (Z.of_nat (length pre))
    = Done (pre ++ ys ++ 0 :: 0 :: post, Z.of_nat (length pre + length ys)).
Proof.
  assert (forall pre (x y : Z) rest,
            <[length pre := y]> (pre ++ x :: rest) = pre ++ y :: rest) as Hset.
  { intros pre x y rest. replace (length pre) with (length pre + 0)%nat by lia.
    by rewrite insert_app_r. }
  assert (forall pre (x y : Z) rest,
            (pre ++ x :: y :: rest) !! Z.to_nat (Z.of_nat (length pre) + 1) = Some y)
    as Hget.
  { intros pre x y rest.
    replace (Z.to_nat (Z.of_nat (length pre) + 1)) with (S (length pre)) by lia.
    rewrite lookup_app_r by lia.
    by replace (S (length pre) - length pre)%nat with 1%nat by lia. }
  induction ys as [|y ys IH]; intros pre x post fuel Hnz Hfuel.
  - destruct fuel; cbn [range_end app]; rewrite Hget, Nat2Z.id, Hset; simpl;
      by rewrite Nat.add_0_r.
  - apply Forall_cons in Hnz as [Hy Hnz].
    destruct fuel as [|fuel]; [simpl in Hfuel; lia|]. simpl in Hfuel.
    cbn [range_end app]. rewrite Hget, Nat2Z.id, Hset.
    destruct (Z.eqb_spec y 0) as [|_]; [done|].
    specialize (IH (pre ++ [y]) y post fuel Hnz ltac:(lia)).
    rewrite length_app in IH. simpl in IH. rewrite <- !app_assoc in IH. simpl in IH.
    replace (Z.of_nat (length pre) + 1) with (Z.of_nat (length pre + 1)) by lia.
    rewrite IH. simpl. do 2 f_equal. lia.
Qed.

(** On a rank list without a zero after its first cell, followed in memory
    by a cell that is 0, and with a pointer that starts as [NULL], the result
    depends on the number of ranks only: it is "0" for one rank and "0-k"
    for k+1 ranks. *)
Lemma compress_int_array_by_size MAX_STRING_LEN x ys post :
  Forall (fun y => y <> 0) ys ->
  let text := match ys with
              | [] => "0"%string
              | _ => "0-" +:+ fmt_d (Z.of_nat (length ys))
              end in
  (String.length text < MAX_STRING_LEN)%nat ->
  compress_int_array MAX_STRING_LEN None (x :: ys ++ 0 :: post)
    (Z.of_nat (S (length ys)))
  = Done (ys ++ 0 :: 0 :: post, Some text).
Proof.
  intros Hnz text Hfits. unfold compress_int_array.
  set (array := x :: ys ++ 0 :: post).
  assert (length array = S (length (ys ++ 0 :: post))) as Hlen by reflexivity.
  assert (range_end (length array) array 0
          = Done (ys ++ 0 :: 0 :: post, Z.of_nat (length ys))) as Hrun.
  { apply (range_end_shift ys [] x post); [done|].
    rewrite Hlen, length_app. lia. }
  rewrite Hlen at 1. cbn [compress_loop].
  destruct (Z.leb_spec (Z.of_nat (S (length ys))) 0) as [Hle|_]; [lia|].
  rewrite Hrun.
  assert ((if negb (Z.of_nat (length ys) =? 0)
           then add_range MAX_STRING_LEN None 0 (Z.of_nat (length ys))
           else add_singleton MAX_STRING_LEN None (Z.of_nat (length ys)))
          = Done text) as ->.
  { subst text. destruct ys as [|y ys].
    - by apply sprintf_at_fits.
    - apply (sprintf_at_fits _ ""). exact Hfits. }
  destruct (length (ys ++ 0 :: post)); cbn [compress_loop];
    destruct (Z.leb_spec (Z.of_nat (S (length ys))) (Z.of_nat (length ys) + 1));
    try lia; done.
Qed.

(** C5 fails on the code.  On the block that holds the ranks 1, 2, 3, 5, 7,
    8, 9 followed by a cell that is 0, with a pointer that starts as [NULL]
    and a buffer of at least 4 bytes, [compress_int_array] returns "0-6" and
    has shifted the ranks; section 4.1 gives "1-3, 5, 7-9".  When no cell
    follows the ranks, the loop reads outside of the block.  A single rank 5
    gives "0", and for an empty list the pointer is returned as it was on
    entry ([NULL] here), not the empty string. *)
Theorem compress_int_array_indices (MAX_STRING_LEN : nat) :
  (3 < MAX_STRING_LEN)%nat ->
  compress_int_array MAX_STRING_LEN None [1; 2; 3; 5; 7; 8; 9; 0] 7
    = Done ([2; 3; 5; 7; 8; 9; 0; 0], Some "0-6"%string) /\
  Notation.CompressIntArray [1; 2; 3; 5; 7; 8; 9] = "1-3, 5, 7-9"%string /\
  compress_int_array MAX_STRING_LEN None [1; 2; 3; 5; 7; 8; 9] 7 = Undefined /\
  compress_int_array MAX_STRING_LEN None [5; 0] 1 = Done ([0; 0], Some "0"%string) /\
  compress_int_array MAX_STRING_LEN None [] 0 = Done ([], None).
Proof.
  intros H.
  assert (sprintf_at MAX_STRING_LEN "" "0-6" = Done "0-6"%string) as E6
    by (apply sprintf_at_fits; simpl; lia).
  assert (sprintf_at MAX_STRING_LEN "" "0" = Done "0"%string) as E0
    by (apply sprintf_at_fits; simpl; lia).
  split; [|split; [|split; [|split]]].
  - unfold compress_int_array. lazy -[sprintf_at]. by rewrite E6.
  - vm_compute. reflexivity.
  - vm_compute. reflexivity.
  - unfold compress_int_array. lazy -[sprintf_at]. by rewrite E0.
  - vm_compute. reflexivity.
Qed.

Lemma compress_int_array_indices_witness :
  compress_int_array 64 None [1; 2; 3; 5; 7; 8; 9; 0] 7
    = Done ([2; 3; 5; 7; 8; 9; 0; 0], Some "0-6"%string).
Proof.
  apply (compress_int_array_indices 64). lia.
Defined.

(** C6 fails on the code.  The string [compress_int_array] returns for the
    ranks 1, 2, 3, 5, 7, 8, 9 decodes to 0, 1, ..., 6, not to the ranks.  Two
    different rank lists, 1, 2, 3 and 4, 5, 6, are given the same string
    "0-2": no decoder brings both back.  On the codec of section 4.1 the
    example makes the round trip. *)
Theorem round_trip_indices (MAX_STRING_LEN : nat) :
  (3 < MAX_STRING_LEN)%nat ->
  compress_int_array MAX_STRING_LEN None [1; 2; 3; 5; 7; 8; 9; 0] 7
    = Done ([2; 3; 5; 7; 8; 9; 0; 0], Some "0-6"%string) /\
  Notation.decompress "0-6" = Some [0; 1; 2; 3; 4; 5; 6] /\
  compress_int_array MAX_STRING_LEN None [1; 2; 3; 0] 3
    = Done ([2; 3; 0; 0], Some "0-2"%string) /\
  compress_int_array MAX_STRING_LEN None [4; 5; 6; 0] 3
    = Done ([5; 6; 0; 0], Some "0-2"%string) /\
  Notation.decompress (Notation.CompressIntArray [1; 2; 3; 5; 7; 8; 9])
    = Some [1; 2; 3; 5; 7; 8; 9].
Proof.
  intros H.
  assert (sprintf_at MAX_STRING_LEN "" "0-6" = Done "0-6"%string) as E6
    by (apply sprintf_at_fits; simpl; lia).
  assert (sprintf_at MAX_STRING_LEN "" "0-2" = Done "0-2"%string) as E2
    by (apply sprintf_at_fits; simpl; lia).
  split; [|split; [|split; [|split]]].
  - unfold compress_int_array. lazy -[sprintf_at]. by rewrite E6.
  - vm_compute. reflexivity.
  - unfold compress_int_array. lazy -[sprintf_at]. by rewrite E2.
  - unfold compress_int_array. lazy -[sprintf_at]. by rewrite E2.
  - vm_compute. reflexivity.
Qed.

Lemma round_trip_indices_witness :
  Notation.decompress "0-6" = Some [0; 1; 2; 3; 4; 5; 6] /\
  compress_int_array 64 None [1; 2; 3; 0] 3 = Done ([2; 3; 0; 0], Some "0-2"%string) /\
  compress_int_array 64 None [4; 5; 6; 0] 3 = Done ([5; 6; 0; 0], Some "0-2"%string).
Proof.
  assert (3 < 64)%nat as H by lia.
  destruct (round_trip_indices 64 H) as (_ & Hd & H123 & H456 & _).
  split; [exact Hd|]. split; [exact H123 | exact H456].
Defined.

End RankLists.

Section Clustering.
Import Grouping.

(** C9: under a policy that lets the value 2 join the group of the value 1
    and the value 3 join the group of the values 1 and 2, adding the points
    1, 2, 3 (ids 0, 1, 2) and finalizing gives one group, of interval [1,3]
    and 3 members; finalizing again, with no point added, gives no group. *)
Theorem clusterer_one_group (compatible : Z -> VolumeGroup -> bool) :
  compatible 2 (mkVolumeGroup 1 1 1 [0]) = true ->
  compatible 3 (mkVolumeGroup 1 2 2 [0; 1]) = true ->
  let state := add compatible 2 3 (add compatible 1 2 (add compatible 0 1 [])) in
  finalize state = ([mkVolumeGroup 1 3 3 [0; 1; 2]], []) /\
  finalize (finalize state).2 = ([], []).
Proof.
  intros H2 H3. simpl. rewrite H2. simpl. unfold join_group. simpl.
  change (1 `min` 2) with 1. change (1 `max` 2) with 2. change (1 + 1) with 2.
  rewrite H3. split; reflexivity.
Qed.

Lemma clusterer_one_group_witness :
  finalize (add adjacent_or_overlapping 2 3
              (add adjacent_or_overlapping 1 2
                 (add adjacent_or_overlapping 0 1 [])))
    = ([mkVolumeGroup 1 3 3 [0; 1; 2]], []).
Proof.
  apply (clusterer_one_group adjacent_or_overlapping); reflexivity.
Defined.

End Clustering.

Section Rescaling.
Import Scale.

Variable FromString : string -> Z * Z.
Variable ToString : Z -> Z -> string.
Variable IsValidScale : Z -> Z -> bool.
Variables DOWN UP : Z.

Lemma scale_down_zeros :
  mapFloat64sCompute DOWN UP DOWN Inputs.two_zeros = Inputs.two_zeros.
Proof.
  unfold mapFloat64sCompute. rewrite Z.eqb_refl. vm_compute. reflexivity.
Qed.

Lemma mapFloat64sScaleDown_zeros unitType unitScale :
  (mapFloat64sScaleDown IsValidScale DOWN UP unitType unitScale Inputs.two_zeros).2
  = Inputs.two_zeros.
Proof.
  unfold mapFloat64sScaleDown.
  destruct (unitScale =? -1); [done|].
  destruct (IsValidScale _ _); simpl; [apply scale_down_zeros | done].
Qed.

(** Whatever the depth allowed, the call on two zeros does not return. *)
Lemma MapFloat64s_zeros_out_of_fuel fuel :
  forall unitID,
    MapFloat64s FromString ToString IsValidScale DOWN UP fuel unitID Inputs.two_zeros
    = None.
Proof.
  induction fuel as [|fuel IH]; intros unitID; [done|].
  cbn [MapFloat64s].
  replace (Float64s (map snd (map_to_list Inputs.two_zeros)))
    with [0%float; 0%float] by (vm_compute; reflexivity).
  replace (size Inputs.two_zeros) with 2%nat by (vm_compute; reflexivity).
  cbn [length Nat.leb andb at_index lookup list_lookup Nat.sub].
  replace (PrimFloat.leb 0 0) with true by reflexivity.
  replace (PrimFloat.leb 0 1) with true by reflexivity.
  cbn [andb].
  destruct (FromString unitID) as [unitType unitScale].
  pose proof (mapFloat64sScaleDown_zeros unitType unitScale) as Hz.
  destruct (mapFloat64sScaleDown _ _ _ _ _ _) as [[t sc] newValues].
  simpl in Hz. subst newValues. apply IH.
Qed.

(** Hence the call never returns. *)
Lemma MapFloat64s_zeros_never_returns unitID :
  ~ returns FromString ToString IsValidScale DOWN UP unitID Inputs.two_zeros.
Proof.
  intros (fuel & result & H). by rewrite MapFloat64s_zeros_out_of_fuel in H.
Qed.

End Rescaling.

(** C10 fails on the code.  For every behaviour of package [unit], every
    unit string and every bound on the depth of the calls, [MapFloat64s] on
    the map of two zeros reaches the bound: the values stay 0 when they are
    scaled down (or are left as they are), so the first test holds again in
    every call and the base case is never reached. *)
Theorem MapFloat64s_zeros_diverges
    (FromString : string -> Z * Z) (ToString : Z -> Z -> string)
    (IsValidScale : Z -> Z -> bool) (DOWN UP : Z) (unitID : string) (fuel : nat) :
  Scale.MapFloat64s FromString ToString IsValidScale DOWN UP fuel unitID
    Inputs.two_zeros = None.
Proof. apply MapFloat64s_zeros_out_of_fuel. Qed.

(** * More of the code *)

Section PatternTableInvariants.
Import Datafilereader(CompareCallPatterns).
Import Profiler.

Implicit Types (h : store) (g : GlobalPatterns) (s r : gmap Z Z) (ps : list ptr).

Lemma wrap_wrap_add a b : wrap (wrap a + b) = wrap (a + b).
Proof.
  unfold wrap. f_equal.
  replace ((a + 2 ^ 63) mod 2 ^ 64 - 2 ^ 63 + b + 2 ^ 63)
    with ((a + 2 ^ 63) mod 2 ^ 64 + b) by lia.
  rewrite Zplus_mod_idemp_l. f_equal. lia.
Qed.


(** The two ways [addPattern] ends on a well-formed table. *)
Lemma addPattern_cases h g c s r h' g' e :
  wf h g ->
  addPattern h g c s r = Some (h', g', e) ->
  e = None /\
  ((exists p x, first_match h (AllPatterns g) s r = Some p /\ h !! p = Some x /\
      Send x = s /\ Recv x = r /\ g' = g /\
      h' = <[p := mkCallPattern s r (wrap (Count x + 1)) (Calls x ++ [c])]> h) \/
   (first_match h (AllPatterns g) s r = None /\
      h' = h ++ [mkCallPattern s r 1 [c]] /\
      g' = mkGlobalPatterns (AllPatterns g ++ [length h])
             (detect_one_to_n (length h) (map_to_list s) (OneToN g)))).
Proof.
  intros Hwf Hadd. destruct (first_match h (AllPatterns g) s r) as [p|] eqn:Hm.
  - destruct (addPattern_matched h g c s r p Hwf Hm) as (x & Hx & Hs & Hr & E).
    rewrite E in Hadd. injection Hadd as <- <- <-.
    split; [done|]. left. by exists p, x.
  - rewrite (addPattern_new h g c s r Hwf Hm) in Hadd. injection Hadd as <- <- <-.
    split; [done|]. by right.
Qed.

(** On a well-formed table [addPattern] does not panic and returns no
    error. *)
Lemma addPattern_succeeds h g c s r :
  wf h g -> exists h' g', addPattern h g c s r = Some (h', g', None).
Proof.
  intros Hwf. destruct (first_match h (AllPatterns g) s r) as [p|] eqn:Hm.
  - destruct (addPattern_matched h g c s r p Hwf Hm) as (x & _ & _ & _ & ->).
    by eexists _, _.
  - rewrite (addPattern_new h g c s r Hwf Hm). by eexists _, _.
Qed.

(** X1: [addPattern] only appends.  On a well-formed table it returns no
    error, the two slices of the table are extended at their end, no stored
    pattern is removed, and a stored pattern keeps its signature and the
    call numbers it had, in the same order. *)
Theorem addPattern_append_only h g c s r h' g' e :
  wf h g ->
  addPattern h g c s r = Some (h', g', e) ->
  e = None /\
  AllPatterns g `prefix_of` AllPatterns g' /\
  OneToN g `prefix_of` OneToN g' /\
  forall p x, h !! p = Some x ->
    exists x', h' !! p = Some x' /\ Send x' = Send x /\ Recv x' = Recv x /\
               Calls x `prefix_of` Calls x'.
Proof.
  intros Hwf Hadd.
  destruct (addPattern_cases _ _ _ _ _ _ _ _ Hwf Hadd)
    as [-> [(q & y & Hm & Hy & Hs & Hr & -> & ->)|(Hm & -> & ->)]].
  - split; [done|]. split; [done|]. split; [done|]. intros p x Hx.
    destruct (decide (p = q)) as [->|Hne].
    + rewrite Hy in Hx. injection Hx as <-.
      rewrite list_lookup_insert_eq by (by eapply lookup_lt_Some).
      eexists. split; [done|]. simpl. split; [done|]. split; [done|].
      by apply prefix_app_r.
    + rewrite list_lookup_insert_ne by done. by exists x.
  - split; [done|]. simpl. split; [by apply prefix_app_r|]. split.
    + rewrite detect_one_to_n_spec. by apply prefix_app_r.
    + intros p x Hx. exists x. by rewrite lookup_app_l by (by eapply lookup_lt_Some).
Qed.

Lemma addPattern_append_only_witness :
  exists h' g',
    addPattern [mkCallPattern {[ 1 := 2 ]} {[ 1 := 2 ]} 1 [0]]
               (mkGlobalPatterns [0%nat] []) 1 {[ 2 := 2 ]} ∅ = Some (h', g', None) /\
    [0%nat] `prefix_of` AllPatterns g'.
Proof.
  eexists _, _. split; [vm_compute; reflexivity|].
  refine (proj1 (proj2 (addPattern_append_only
           [mkCallPattern {[ 1 := 2 ]} {[ 1 := 2 ]} 1 [0]]
           (mkGlobalPatterns [0%nat] []) 1 {[ 2 := 2 ]} ∅ _ _ None _ _))).
  - split; [apply Forall_singleton; simpl; lia | constructor].
  - vm_compute. reflexivity.
Defined.

Lemma recorded_calls_app h1 h2 :
  recorded_calls (h1 ++ h2) = recorded_calls h1 ++ recorded_calls h2.
Proof. unfold recorded_calls. by rewrite map_app, concat_app. Qed.

Lemma recorded_calls_insert h p x c :
  h !! p = Some x ->
  recorded_calls (<[p := mkCallPattern (Send x) (Recv x) (wrap (Count x + 1))
                                       (Calls x ++ [c])]> h)
  ≡ₚ recorded_calls h ++ [c].
Proof.
  revert p. induction h as [|y h IH]; intros [|p] Hx; simpl in *; try done.
  - injection Hx as ->. unfold recorded_calls. simpl.
    rewrite <- !app_assoc. apply Permutation_app_head, Permutation_app_comm.
  - unfold recorded_calls in *. simpl. rewrite <- app_assoc.
    apply Permutation_app_head. by apply IH.
Qed.

Lemma addPattern_recorded h g c s r h' g' e :
  wf h g ->
  addPattern h g c s r = Some (h', g', e) ->
  recorded_calls h' ≡ₚ recorded_calls h ++ [c].
Proof.
  intros Hwf Hadd.
  destruct (addPattern_cases _ _ _ _ _ _ _ _ Hwf Hadd)
    as [-> [(q & y & Hm & Hy & Hs & Hr & -> & ->)|(Hm & -> & ->)]].
  - rewrite <- Hs, <- Hr. by apply recorded_calls_insert.
  - by rewrite recorded_calls_app.
Qed.

(** X2: [addPattern] records the call number once.  On a well-formed table
    the call numbers recorded after the call are the ones recorded before
    plus the new one, and the new one is the last member of the pattern the
    record ends up in, whose signature is the one submitted. *)
Theorem addPattern_records_call h g c s r h' g' e :
  wf h g ->
  addPattern h g c s r = Some (h', g', e) ->
  recorded_calls h' ≡ₚ recorded_calls h ++ [c] /\
  exists x, h' !! resulting_pattern h g s r = Some x /\
            Send x = s /\ Recv x = r /\ last (Calls x) = Some c.
Proof.
  intros Hwf Hadd. unfold resulting_pattern.
  destruct (addPattern_cases _ _ _ _ _ _ _ _ Hwf Hadd)
    as [-> [(q & y & Hm & Hy & Hs & Hr & -> & ->)|(Hm & -> & ->)]]; rewrite Hm; simpl.
  - split; [by eapply addPattern_recorded|].
    rewrite list_lookup_insert_eq by (by eapply lookup_lt_Some).
    eexists. split; [done|]. simpl. by rewrite last_snoc.
  - split; [by eapply addPattern_recorded|].
    rewrite list_lookup_middle by done. by eexists.
Qed.

Lemma addPattern_records_call_witness :
  exists h' g',
    addPattern [mkCallPattern {[ 1 := 2 ]} {[ 1 := 2 ]} 1 [0]]
               (mkGlobalPatterns [0%nat] []) 1 {[ 1 := 2 ]} {[ 1 := 2 ]}
      = Some (h', g', None) /\
    recorded_calls h' ≡ₚ [0; 1].
Proof.
  eexists _, _. split; [vm_compute; reflexivity|].
  refine (proj1 (addPattern_records_call
           [mkCallPattern {[ 1 := 2 ]} {[ 1 := 2 ]} 1 [0]]
           (mkGlobalPatterns [0%nat] []) 1 {[ 1 := 2 ]} {[ 1 := 2 ]} _ _ None _ _)).
  - split; [apply Forall_singleton; simpl; lia | constructor].
  - vm_compute. reflexivity.
Defined.




(** X4: in every table built by [addPattern], the count of a pattern is the
    number of call numbers it holds (as a 64-bit integer), and every pattern
    holds at least one call number. *)
Theorem built_count_is_members h g :
  built h g ->
  Forall (fun x => Count x = wrap (Z.of_nat (length (Calls x))) /\ Calls x <> []) h.
Proof.
  induction 1 as [|h g c s r h' g' e Hb IH Hadd]; [constructor|].
  pose proof (built_inv h g Hb) as [Hwf _].
  destruct (addPattern_cases _ _ _ _ _ _ _ _ Hwf Hadd)
    as [-> [(q & y & Hm & Hy & Hs & Hr & -> & ->)|(Hm & -> & ->)]].
  - apply Forall_insert; [done|]. simpl.
    rewrite Forall_lookup in IH. destruct (IH q y Hy) as [Hc _].
    split; [|by destruct (Calls y)].
    rewrite Hc, wrap_wrap_add, length_app. simpl. f_equal. lia.
  - apply Forall_app. split; [done|]. apply Forall_singleton. simpl.
    split; [by vm_compute | done].
Qed.

Lemma built_count_is_members_witness :
  Forall (fun x => Count x = wrap (Z.of_nat (length (Calls x))) /\ Calls x <> [])
         [mkCallPattern {[ 0 := 299; 300 := 1 ]} ∅ 1 [7]].
Proof.
  apply (built_count_is_members _ (mkGlobalPatterns [0%nat] [0%nat])).
  apply (built_add [] noPatterns 7 {[ 0 := 299; 300 := 1 ]} ∅ _ _ None built_zero).
  vm_compute. reflexivity.
Defined.

End PatternTableInvariants.

Section StatisticsInvariants.
Import Profiler.

Lemma sum_perm (l1 l2 : list Z) :
  l1 ≡ₚ l2 -> foldr Z.add 0 l1 = foldr Z.add 0 l2.
Proof. induction 1; simpl; lia. Qed.

Lemma total_empty : total ∅ = 0.
Proof. unfold total. by rewrite map_to_list_empty. Qed.

Lemma total_insert_fresh (m : gmap Z Z) k v :
  m !! k = None -> total (<[k := v]> m) = v + total m.
Proof.
  intros Hk. unfold total.
  by rewrite (sum_perm _ _ (fmap_Permutation snd _ _ (map_to_list_insert m k v Hk))).
Qed.

Lemma total_delete (m : gmap Z Z) k v :
  m !! k = Some v -> total m = v + total (delete k m).
Proof.
  intros Hk. unfold total.
  by rewrite <- (sum_perm _ _ (fmap_Permutation snd _ _ (map_to_list_delete m k v Hk))).
Qed.

Lemma total_insert_present (m : gmap Z Z) k v0 v :
  m !! k = Some v0 -> total (<[k := v]> m) = total m - v0 + v.
Proof.
  intros Hk. rewrite <- insert_delete_eq.
  rewrite total_insert_fresh by apply lookup_delete_eq.
  rewrite (total_delete m k v0 Hk). lia.
Qed.

(** A histogram whose counts are positive and add up to [t]. *)
Abbreviation counted t m :=
  (total m = t /\ map_Forall (fun (_ : Z) v => 1 <= v) (m : gmap Z Z)).

Lemma counted_bound t (m : gmap Z Z) k v :
  counted t m -> m !! k = Some v -> 1 <= v <= t.
Proof.
  intros [Ht Hpos] Hk. split; [by apply (Hpos k)|].
  rewrite <- Ht, (total_delete m k v Hk).
  assert (0 <= total (delete k m)); [|lia].
  assert (map_Forall (fun (_ : Z) v => 1 <= v) (delete k m)) as Hd.
  { intros j w Hj. apply lookup_delete_Some in Hj as [_ Hj]. by apply (Hpos j). }
  revert Hd. generalize (delete k m). intros m'.
  induction m' as [|j w m' Hj _ IH] using map_first_key_ind; intros Hd.
  - by rewrite total_empty.
  - rewrite total_insert_fresh by done.
    apply map_Forall_insert in Hd as [Hw Hd]; [|done]. specialize (IH Hd). lia.
Qed.

(** One more call counted under the key [k]. *)
Lemma count_key_counted t (m : gmap Z Z) k :
  counted t m -> t < int_max -> counted (t + 1) (count_key m m k).
Proof.
  intros Hc Hlt. unfold count_key. destruct (m !! k) as [v|] eqn:Hk.
  - destruct (counted_bound t m k v Hc Hk) as [Hv1 Hvt].
    simpl. rewrite wrap_small by (unfold in_int, int_min, int_max in *; lia).
    destruct Hc as [Ht Hpos]. split.
    + rewrite (total_insert_present m k v) by done. lia.
    + apply map_Forall_insert_2; [lia | done].
  - destruct Hc as [Ht Hpos]. split.
    + rewrite total_insert_fresh by done. lia.
    + apply map_Forall_insert_2; [lia | done].
Qed.

(** The seven histograms the loop keeps by their own key. *)
Abbreviation histograms_count t cs :=
  (counted t (CommSizes cs) /\ counted t (DatatypesSend cs) /\
   counted t (DatatypesRecv cs) /\ counted t (SendMaxs cs) /\
   counted t (RecvMaxs cs) /\ counted t (CallSendSparsity cs) /\
   counted t (CallRecvSparsity cs)).

Lemma accumulate_histograms t cs ci :
  histograms_count t cs -> t < int_max -> histograms_count (t + 1) (accumulate cs ci).
Proof.
  intros (H1 & H2 & H3 & H4 & H5 & H6 & H7) Hlt.
  unfold accumulate; cbn [CommSizes DatatypesSend DatatypesRecv SendMaxs RecvMaxs
                           CallSendSparsity CallRecvSparsity].
  pose proof (fun m k H => count_key_counted t m k H Hlt) as Hstep.
  refine (conj _ (conj _ (conj _ (conj _ (conj _ (conj _ _)))))); by apply Hstep.
Qed.

Section Loop.

Variable LookupCall : string -> string -> Z -> Z -> Datafilereader.CallInfo + string.
Variables (f1 f2 : string) (thr : Z).

(** What the loop of [ParseCountFiles] keeps, as long as every lookup
    succeeds. *)
Lemma ParseCountFiles_loop_inv n :
  forall i h cs,
    0 <= i -> i + Z.of_nat n <= int_max ->
    built h (Patterns cs) ->
    histograms_count i cs ->
    (forall j, i <= j < i + Z.of_nat n ->
       exists ci, LookupCall f1 f2 j thr = inl ci) ->
    exists h' cs',
      ParseCountFiles_loop LookupCall f1 f2 thr n i h cs = Some (h', cs', None) /\
      built h' (Patterns cs') /\
      histograms_count (i + Z.of_nat n) cs' /\
      recorded_calls h'
        ≡ₚ recorded_calls h ++ map (fun k => i + Z.of_nat k) (seq 0 n).
Proof.
  induction n as [|n IH]; intros i h cs Hi Hmax Hb Hhist Hlook.
  - exists h, cs. simpl. rewrite Z.add_0_r, app_nil_r. done.
  - cbn [ParseCountFiles_loop].
    destruct (Hlook i ltac:(lia)) as [ci ->].
    pose proof (built_inv _ _ Hb) as [Hwf _].
    destruct (addPattern_succeeds h (Patterns cs) i
                (Datafilereader.SendPatterns (Datafilereader.Patterns ci))
                (Datafilereader.RecvPatterns (Datafilereader.Patterns ci)) Hwf)
      as (h1 & g1 & Hadd).
    change (Patterns (accumulate cs ci)) with (Patterns cs). rewrite Hadd.
    pose proof (addPattern_recorded _ _ _ _ _ _ _ _ Hwf Hadd) as Hrec.
    destruct (IH (i + 1) h1 (set_Patterns (accumulate cs ci) g1))
      as (h' & cs' & Hloop & Hb' & Hhist' & Hrec'); try lia.
    + simpl. by eapply built_add.
    + apply (accumulate_histograms i cs ci Hhist). lia.
    + intros j Hj. apply Hlook. lia.
    + exists h', cs'. split; [done|]. split; [done|]. split.
      * replace (i + Z.of_nat (S n)) with (i + 1 + Z.of_nat n) by lia. done.
      * rewrite Hrec', Hrec, <- app_assoc. apply Permutation_app_head.
        cbn [seq map app]. rewrite Z.add_0_r. apply Permutation_cons; [done|].
        rewrite <- seq_shift, map_map.
        assert (map (fun k => i + 1 + Z.of_nat k) (seq 0 n)
                = map (fun k => i + Z.of_nat (S k)) (seq 0 n)) as ->; [|done].
        apply map_ext. intros k. lia.
Qed.

Lemma ParseCountFiles_loop_split k :
  forall m i h cs h' cs',
    ParseCountFiles_loop LookupCall f1 f2 thr k i h cs = Some (h', cs', None) ->
    ParseCountFiles_loop LookupCall f1 f2 thr (k + m) i h cs
    = ParseCountFiles_loop LookupCall f1 f2 thr m (i + Z.of_nat k) h' cs'.
Proof.
  induction k as [|k IH]; intros m i h cs h' cs'.
  - simpl. intros [= <- <-]. by rewrite Z.add_0_r.
  - cbn [ParseCountFiles_loop Nat.add].
    destruct (LookupCall f1 f2 i thr) as [ci|err]; [|done].
    destruct (addPattern _ _ _ _ _) as [[[h1 g1] [err|]]|]; [done| |done].
    intros Hloop. rewrite (IH m _ _ _ _ _ Hloop). f_equal. lia.
Qed.

End Loop.

Lemma histograms_count_zero : histograms_count 0 newCountStats.
Proof.
  assert (counted 0 ∅) as H0 by (split; [apply total_empty | apply map_Forall_empty]).
  by refine (conj _ (conj _ (conj _ (conj _ (conj _ (conj _ _)))))).
Qed.

Lemma seq_as_calls n :
  map (fun k => 0 + Z.of_nat k) (seq 0 n) = map Z.of_nat (seq 0 n).
Proof. apply map_ext. intros k. lia. Qed.

(** X5: when the lookup succeeds for every call from 0 to [numCalls - 1],
    [ParseCountFiles] returns without error, its pattern table is one that
    [addPattern] built, and every call number from 0 to [numCalls - 1] is
    recorded in the patterns exactly once. *)
Theorem ParseCountFiles_records_every_call
    (LookupCall : string -> string -> Z -> Z -> Datafilereader.CallInfo + string)
    (f1 f2 : string) (thr numCalls : Z) :
  numCalls <= int_max ->
  (forall i, 0 <= i < numCalls -> exists ci, LookupCall f1 f2 i thr = inl ci) ->
  exists h cs,
    ParseCountFiles LookupCall f1 f2 thr numCalls = Some (h, cs, None) /\
    built h (Patterns cs) /\
    recorded_calls h ≡ₚ map Z.of_nat (seq 0 (Z.to_nat numCalls)).
Proof.
  intros Hmax Hlook. unfold ParseCountFiles.
  destruct (ParseCountFiles_loop_inv LookupCall f1 f2 thr (Z.to_nat numCalls)
              0 [] newCountStats)
    as (h & cs & Hloop & Hb & _ & Hrec);
    [lia | unfold int_max in *; lia | apply built_zero | apply histograms_count_zero
    | intros j Hj; apply Hlook; lia |].
  exists h, cs. split; [done|]. split; [done|].
  by rewrite Hrec, seq_as_calls.
Qed.

Lemma ParseCountFiles_records_every_call_witness :
  exists h cs,
    ParseCountFiles Inputs.lookup_two_calls "send.txt" "recv.txt" 200 2
      = Some (h, cs, None) /\
    built h (Patterns cs) /\
    recorded_calls h ≡ₚ [0; 1].
Proof.
  apply (ParseCountFiles_records_every_call Inputs.lookup_two_calls
           "send.txt" "recv.txt" 200 2).
  - unfold int_max. lia.
  - intros i Hi. assert (i = 0 \/ i = 1) as [-> | ->] by lia; by eexists.
Defined.

(** X6: when the lookup succeeds for every call, the counts of each of the
    histograms of the communicator sizes, of the two datatype sizes, of the
    two maxima and of the two sparsities add up to the number of calls. *)
Theorem ParseCountFiles_histogram_totals
    (LookupCall : string -> string -> Z -> Z -> Datafilereader.CallInfo + string)
    (f1 f2 : string) (thr numCalls : Z) :
  0 <= numCalls <= int_max ->
  (forall i, 0 <= i < numCalls -> exists ci, LookupCall f1 f2 i thr = inl ci) ->
  exists h cs,
    ParseCountFiles LookupCall f1 f2 thr numCalls = Some (h, cs, None) /\
    total (CommSizes cs) = numCalls /\
    total (DatatypesSend cs) = numCalls /\
    total (DatatypesRecv cs) = numCalls /\
    total (SendMaxs cs) = numCalls /\
    total (RecvMaxs cs) = numCalls /\
    total (CallSendSparsity cs) = numCalls /\
    total (CallRecvSparsity cs) = numCalls.
Proof.
  intros Hmax Hlook. unfold ParseCountFiles.
  destruct (ParseCountFiles_loop_inv LookupCall f1 f2 thr (Z.to_nat numCalls)
              0 [] newCountStats)
    as (h & cs & Hloop & _ & Hhist & _);
    [lia | unfold int_max in *; lia | apply built_zero | apply histograms_count_zero
    | intros j Hj; apply Hlook; lia |].
  exists h, cs. split; [done|].
  replace (0 + Z.of_nat (Z.to_nat numCalls)) with numCalls in Hhist by lia.
  destruct Hhist as ([? _] & [? _] & [? _] & [? _] & [? _] & [? _] & [? _]).
  by refine (conj _ (conj _ (conj _ (conj _ (conj _ (conj _ _)))))).
Qed.

Lemma ParseCountFiles_histogram_totals_witness :
  exists h cs,
    ParseCountFiles Inputs.lookup_two_calls "send.txt" "recv.txt" 200 2
      = Some (h, cs, None) /\
    total (CommSizes cs) = 2.
Proof.
  destruct (ParseCountFiles_histogram_totals Inputs.lookup_two_calls
              "send.txt" "recv.txt" 200 2) as (h & cs & Hrun & Hcomm & _).
  - unfold int_max. lia.
  - intros i Hi. assert (i = 0 \/ i = 1) as [-> | ->] by lia; by eexists.
  - by exists h, cs.
Defined.

(** X7: [ParseCountFiles] stops at the first call whose lookup fails.  When
    the lookup succeeds for the calls before [k] and fails on call [k], the
    error of that lookup is returned, together with the statistics of the
    [k] calls before it: their call numbers are the ones recorded and the
    histogram of the communicator sizes counts [k] calls. *)
Theorem ParseCountFiles_first_error
    (LookupCall : string -> string -> Z -> Z -> Datafilereader.CallInfo + string)
    (f1 f2 : string) (thr numCalls k : Z) (err : string) :
  0 <= k < numCalls -> numCalls <= int_max ->
  (forall i, 0 <= i < k -> exists ci, LookupCall f1 f2 i thr = inl ci) ->
  LookupCall f1 f2 k thr = inr err ->
  exists h cs,
    ParseCountFiles LookupCall f1 f2 thr numCalls = Some (h, cs, Some err) /\
    recorded_calls h ≡ₚ map Z.of_nat (seq 0 (Z.to_nat k)) /\
    total (CommSizes cs) = k.
Proof.
  intros Hk Hmax Hlook Hfail. unfold ParseCountFiles.
  destruct (ParseCountFiles_loop_inv LookupCall f1 f2 thr (Z.to_nat k)
              0 [] newCountStats)
    as (h & cs & Hloop & _ & Hhist & Hrec);
    [lia | unfold int_max in *; lia | apply built_zero | apply histograms_count_zero
    | intros j Hj; apply Hlook; lia |].
  exists h, cs.
  replace (Z.to_nat numCalls)
    with (Z.to_nat k + S (Z.to_nat (numCalls - k - 1)))%nat by lia.
  rewrite (ParseCountFiles_loop_split _ _ _ _ _ _ _ _ _ _ _ Hloop).
  cbn [ParseCountFiles_loop].
  replace (0 + Z.of_nat (Z.to_nat k)) with k in * by lia. rewrite Hfail.
  split; [done|]. split; [by rewrite Hrec, seq_as_calls|].
  by destruct Hhist as ([? _] & _).
Qed.

Lemma ParseCountFiles_first_error_witness :
  exists h cs,
    ParseCountFiles Inputs.lookup_two_calls "send.txt" "recv.txt" 200 5
      = Some (h, cs, Some "call not found"%string) /\
    recorded_calls h ≡ₚ [0; 1] /\
    total (CommSizes cs) = 2.
Proof.
  apply (ParseCountFiles_first_error Inputs.lookup_two_calls
           "send.txt" "recv.txt" 200 5 2 "call not found").
  - lia.
  - unfold int_max. lia.
  - intros i Hi. assert (i = 0 \/ i = 1) as [-> | ->] by lia; by eexists.
  - reflexivity.
Defined.

End StatisticsInvariants.

Section ReportMore.
Import Profiler.




End ReportMore.

Section OrderedArray.
Import Format.

Abbreviation by_value := (fun a b : KV => Val a <= Val b).

Lemma insert_kv_perm x l : insert_kv x l ≡ₚ x :: l.
Proof.
  induction l as [|y l IH]; simpl; [done|].
  destruct (Less x y); [done|]. rewrite IH. apply Permutation_swap.
Qed.

Lemma insert_kv_sorted x l :
  StronglySorted by_value l -> StronglySorted by_value (insert_kv x l).
Proof.
  induction 1 as [|y l Hs IH Hy]; simpl; [repeat constructor|].
  unfold Less. destruct (Z.ltb_spec (Val x) (Val y)) as [Hlt|Hge].
  - constructor; [by constructor|]. constructor; [lia|].
    eapply Forall_impl; [exact Hy|]. simpl. lia.
  - constructor; [done|]. rewrite insert_kv_perm. by constructor.
Qed.

Lemma Sort_spec l : Sort l ≡ₚ l /\ StronglySorted by_value (Sort l).
Proof.
  unfold Sort.
  assert (forall acc, StronglySorted by_value acc ->
            foldl (fun sorted x => insert_kv x sorted) acc l ≡ₚ acc ++ l /\
            StronglySorted by_value (foldl (fun sorted x => insert_kv x sorted) acc l))
    as H.
  { induction l as [|x l IH]; intros acc Hacc; simpl.
    - by rewrite app_nil_r.
    - destruct (IH (insert_kv x acc) (insert_kv_sorted x acc Hacc)) as [Hp Hs].
      split; [|done]. rewrite Hp, insert_kv_perm. simpl. apply Permutation_middle. }
  apply (H []). constructor.
Qed.

(** X9: whatever the order in which [range] visits the map,
    [ConvertIntMapToOrderedArrayByValue] returns the entries of the map, each
    once, in non-decreasing order of their values. *)
Theorem ConvertIntMapToOrderedArrayByValue_sorted
    (range : gmap Z Z -> list (Z * Z)) (m : gmap Z Z) :
  Profiler.valid_range range ->
  map (fun kv => (Key kv, Val kv)) (ConvertIntMapToOrderedArrayByValue range m)
    ≡ₚ map_to_list m /\
  StronglySorted by_value (ConvertIntMapToOrderedArrayByValue range m).
Proof.
  intros Hvalid. unfold ConvertIntMapToOrderedArrayByValue.
  destruct (Sort_spec (map (fun kv => mkKV kv.1 kv.2) (range m))) as [Hp Hs].
  split; [|done]. rewrite Hp, map_map, <- (Hvalid m).
  erewrite map_ext; [by rewrite map_id|]. by intros [k v].
Qed.

Lemma ConvertIntMapToOrderedArrayByValue_sorted_witness :
  StronglySorted by_value
    (ConvertIntMapToOrderedArrayByValue Inputs.range_reversed
       {[ 1 := 5; 2 := 3; 7 := 4 ]}).
Proof.
  apply (ConvertIntMapToOrderedArrayByValue_sorted Inputs.range_reversed).
  intros m. apply reverse_Permutation.
Defined.

End OrderedArray.

Section Bins.
Import Profiler.

Lemma createBins_loop_spec (listBins : list Z) n :
  forall i start end_,
    (i + n = length listBins + 1)%nat ->
    (listBins ++ [-1]) !! i = Some end_ ->
    map Min (createBins_loop n i start end_ listBins) = start :: drop i listBins /\
    map Max (createBins_loop n i start end_ listBins) = drop i (listBins ++ [-1]) /\
    Forall (fun b => Size b = 0) (createBins_loop n i start end_ listBins).
Proof.
  induction n as [|n IH]; intros i start end_ Hn Hend.
  - apply lookup_lt_Some in Hend. rewrite length_app in Hend. simpl in Hend. lia.
  - cbn [createBins_loop map].
    rewrite (drop_S (listBins ++ [-1]) end_ i Hend).
    destruct (decide (i = length listBins)) as [->|Hi].
    + assert (n = 0%nat) as -> by lia. simpl.
      rewrite drop_all. repeat split; [|by repeat constructor].
      f_equal. rewrite drop_ge; [done|]. rewrite length_app. simpl. lia.
    + assert (i < length listBins)%nat as Hlt by lia.
      assert (listBins !! i = Some end_) as Hli by (by rewrite lookup_app_l in Hend).
      rewrite (drop_S listBins end_ i Hli).
      destruct (IH (S i) end_
                  (if (i + 1 <? length listBins)%nat
                   then default 0 (listBins !! (i + 1)%nat) else -1))
        as (Hmin & Hmax & Hsize); [lia| |].
      * destruct (Nat.ltb_spec (i + 1) (length listBins)) as [Hlt'|Hge].
        -- rewrite lookup_app_l by lia. rewrite Nat.add_1_r in *.
           destruct (lookup_lt_is_Some_2 listBins (S i) Hlt') as [t ->]. done.
        -- assert (S i = length listBins) as -> by lia.
           by rewrite list_lookup_middle.
      * rewrite Hmin, Hmax. repeat split. by constructor.
Qed.

(** X10: [createBins] panics on an empty list of thresholds; on the
    thresholds [t1, ..., tn] it returns [n + 1] empty bins that follow one
    another: their lower bounds are [0, t1, ..., tn] and their upper bounds
    [t1, ..., tn, -1], where -1 stands for no bound. *)
Theorem createBins_bounds (listBins : list Z) :
  match createBins listBins with
  | None => listBins = []
  | Some bins =>
      map Min bins = 0 :: listBins /\
      map Max bins = listBins ++ [-1] /\
      Forall (fun b => Size b = 0) bins
  end.
Proof.
  unfold createBins. destruct listBins as [|t listBins]; [done|].
  cbn [lookup list_lookup].
  apply (createBins_loop_spec (t :: listBins) _ 0%nat 0 t); [simpl; lia | done].
Qed.

Lemma count_in_bins_bounds bins val weight :
  map Min (count_in_bins bins val weight) = map Min bins /\
  map Max (count_in_bins bins val weight) = map Max bins.
Proof.
  induction bins as [|b bins [IH1 IH2]]; [done|]. simpl.
  destruct (in_bin b val); simpl; [done|]. by rewrite IH1, IH2.
Qed.

Lemma count_in_bins_first bins val weight :
  (exists b, b ∈ bins /\ in_bin b val = true) ->
  exists i b,
    bins !! i = Some b /\ in_bin b val = true /\
    (forall j b', (j < i)%nat -> bins !! j = Some b' -> in_bin b' val = false) /\
    count_in_bins bins val weight
    = <[i := mkBin (Min b) (Max b) (wrap (Size b + weight))]> bins.
Proof.
  induction bins as [|b0 bins IH]; intros (b & Hb & Hin).
  - by apply elem_of_nil in Hb.
  - simpl. destruct (in_bin b0 val) eqn:E0.
    + exists 0%nat, b0. repeat split; [done|]. intros j b' Hj. lia.
    + apply elem_of_cons in Hb as [->|Hb]; [congruence|].
      destruct (IH (ex_intro _ b (conj Hb Hin))) as (i & b1 & Hi & Hin1 & Hfirst & ->).
      exists (S i), b1. repeat split; [done..|].
      intros [|j] b' Hj Hb'; simpl in Hb'; [by injection Hb' as <-|].
      apply (Hfirst j b'); [lia | done].
Qed.

Lemma count_in_bins_none bins val weight :
  Forall (fun b => in_bin b val = false) bins -> count_in_bins bins val weight = bins.
Proof.
  induction 1 as [|b bins Hb _ IH]; [done|]. simpl. by rewrite Hb, IH.
Qed.

(** A chain of bins that starts at or below a value and ends without bound
    has a bin for the value. *)
Lemma chain_has_bin val (l : list Z) :
  forall start bins,
    map Min bins = start :: l -> map Max bins = l ++ [-1] ->
    Forall (fun t => 0 <= t) l -> start <= val ->
    exists b, b ∈ bins /\ in_bin b val = true.
Proof.
  induction l as [|t l IH]; intros start bins Hmin Hmax Hpos Hstart.
  - destruct bins as [|b [|? ?]]; try done. injection Hmin as Hmin. injection Hmax as Hmax.
    exists b. split; [left|]. unfold in_bin. rewrite Hmin, Hmax.
    apply orb_true_iff. right. simpl. lia.
  - destruct bins as [|b bins]; [done|].
    injection Hmin as Hmin Hmin'. injection Hmax as Hmax Hmax'.
    apply Forall_cons in Hpos as [Ht Hpos].
    destruct (Z.lt_ge_cases val t) as [Hlt|Hge].
    + exists b. split; [left|]. unfold in_bin. rewrite Hmin, Hmax.
      apply orb_true_iff. left.
      destruct (Z.eqb_spec t (-1)); [lia|]. simpl. lia.
    + destruct (IH t bins Hmin' Hmax' Hpos ltac:(lia)) as (b' & Hb' & Hin).
      exists b'. split; [by right | done].
Qed.

(** X11: with thresholds that are not negative, a value that is not
    negative is counted in exactly one bin of [createBins], the first one
    whose interval holds it; a negative value is counted in none. *)
Theorem count_in_bins_one_bin (listBins : list Z) (bins : list Bin) (val weight : Z) :
  createBins listBins = Some bins ->
  Forall (fun t => 0 <= t) listBins ->
  (0 <= val ->
   exists i b,
     bins !! i = Some b /\ in_bin b val = true /\
     (forall j b', (j < i)%nat -> bins !! j = Some b' -> in_bin b' val = false) /\
     count_in_bins bins val weight
     = <[i := mkBin (Min b) (Max b) (wrap (Size b + weight))]> bins) /\
  (val < 0 -> count_in_bins bins val weight = bins).
Proof.
  intros Hbins Hpos. pose proof (createBins_bounds listBins) as Hb.
  rewrite Hbins in Hb. destruct Hb as (Hmin & Hmax & _). split.
  - intros Hval. apply count_in_bins_first.
    by apply (chain_has_bin val listBins 0 bins).
  - intros Hneg. apply count_in_bins_none.
    assert (Forall (fun m => 0 <= m) (map Min bins)) as Hmins
      by (rewrite Hmin; by constructor).
    rewrite List.Forall_map in Hmins. eapply Forall_impl; [exact Hmins|].
    intros b Hb. simpl in Hb. unfold in_bin.
    destruct (Z.leb_spec (Min b) val); [lia|]. by rewrite !andb_false_r.
Qed.

Lemma count_in_bins_one_bin_witness :
  count_in_bins [mkBin 0 200 0; mkBin 200 1000 0; mkBin 1000 (-1) 0] (-8) 4
  = [mkBin 0 200 0; mkBin 200 1000 0; mkBin 1000 (-1) 0].
Proof.
  refine (proj2 (count_in_bins_one_bin [200; 1000] _ (-8) 4 _ _) _).
  - reflexivity.
  - repeat constructor; lia.
  - lia.
Defined.

Section GetBinsBounds.

Variable ConvertCompressedCallListToIntSlice : string -> list Z + string.
Variable read_blocks :
  string -> (list (Z * Z * (list string + string)) * option string) + string.

Abbreviation same_bounds bins bins' :=
  (map Min bins' = map Min bins /\ map Max bins' = map Max bins).

Lemma count_values_bounds tokens datatypeSize weight :
  forall bins, same_bounds bins (count_values tokens datatypeSize weight bins).1.
Proof.
  induction tokens as [|t tokens IH]; intros bins; [done|]. simpl.
  destruct (String.eqb t ""); [apply IH|].
  destruct (Strconv.Atoi t) as [countVal|err]; [|done].
  destruct (IH (count_in_bins bins (wrap (countVal * datatypeSize)) weight)) as [H1 H2].
  destruct (count_in_bins_bounds bins (wrap (countVal * datatypeSize)) weight) as [H3 H4].
  split; congruence.
Qed.

Lemma count_line_bounds c numCalls datatypeSize bins bins' e :
  count_line ConvertCompressedCallListToIntSlice c numCalls datatypeSize bins
    = Some (bins', e) ->
  same_bounds bins bins'.
Proof.
  unfold count_line. destruct (Strings.Split c ": ") as [|ranks [|counts ?]]; try done.
  destruct (ConvertCompressedCallListToIntSlice _) as [listRanks|err].
  - intros [= H]. pose proof (count_values_bounds
      (Strings.Split (Strings.TrimRight counts nl) " ") datatypeSize
      (wrap (numCalls * Z.of_nat (length listRanks))) bins) as Hb.
    by rewrite H in Hb.
  - by intros [= <- <-].
Qed.

Lemma count_lines_bounds counters numCalls datatypeSize :
  forall bins bins' e,
    count_lines ConvertCompressedCallListToIntSlice counters numCalls datatypeSize bins
      = Some (bins', e) ->
    same_bounds bins bins'.
Proof.
  induction counters as [|c counters IH]; intros bins bins' e; simpl.
  - by intros [= <- <-].
  - destruct (count_line _ c numCalls datatypeSize bins) as [[bins1 [err|]]|] eqn:E;
      [| |done]; apply count_line_bounds in E as [E1 E2].
    + by intros [= <- <-].
    + intros H. apply IH in H as [H1 H2]. split; congruence.
Qed.

Lemma count_blocks_bounds blocks ending :
  forall bins bins' e,
    count_blocks ConvertCompressedCallListToIntSlice blocks ending bins
      = Some (bins', e) ->
    same_bounds bins bins'.
Proof.
  induction blocks as [|[[numCalls datatypeSize] [counters|err]] blocks IH];
    intros bins bins' e; simpl.
  - by intros [= <- <-].
  - destruct (count_lines _ counters numCalls datatypeSize bins)
      as [[bins1 [err|]]|] eqn:E; [| |done]; apply count_lines_bounds in E as [E1 E2].
    + by intros [= <- <-].
    + intros H. apply IH in H as [H1 H2]. split; congruence.
  - by intros [= <- <-].
Qed.

(** X12: whatever the file holds and however the reading ends, the bins
    [GetBins] returns have the bounds [createBins] gave them: lower bounds
    [0, t1, ..., tn] and upper bounds [t1, ..., tn, -1]; only the sizes
    change. *)
Theorem GetBins_keeps_bounds (countFilePath : string) (listBins : list Z)
    (bins : list Bin) (e : error) :
  GetBins ConvertCompressedCallListToIntSlice read_blocks countFilePath listBins
    = Some (bins, e) ->
  map Min bins = 0 :: listBins /\ map Max bins = listBins ++ [-1].
Proof.
  unfold GetBins. pose proof (createBins_bounds listBins) as Hb.
  destruct (createBins listBins) as [bins0|]; [|done].
  destruct Hb as (Hmin & Hmax & _).
  destruct (read_blocks countFilePath) as [[blocks ending]|err].
  - intros H. apply count_blocks_bounds in H as [H1 H2]. split; congruence.
  - intros [= <- <-]. done.
Qed.

End GetBinsBounds.

Lemma GetBins_keeps_bounds_witness :
  exists bins,
    GetBins Inputs.ranks_0_1 Inputs.one_block "send-counters.txt" [200]
      = Some (bins, None) /\
    map Min bins = [0; 200] /\ map Max bins = [200; -1].
Proof.
  eexists. split; [vm_compute; reflexivity|].
  apply (GetBins_keeps_bounds Inputs.ranks_0_1 Inputs.one_block
           "send-counters.txt" [200] _ None).
  vm_compute. reflexivity.
Defined.

End Bins.


Section FileNames.
Import Strings Strconv Profiler.

Abbreviation digits_only s :=
  (Forall (fun c => is_Some (digit_of c)) (list_ascii_of_string s)).
Abbreviation free_of c0 s :=
  (Forall (fun c => c <> c0) (list_ascii_of_string s)).

Lemma free_of_app c0 s1 s2 : free_of c0 s1 -> free_of c0 s2 -> free_of c0 (s1 +:+ s2).
Proof. intros H1 H2. rewrite list_ascii_of_string_app. by apply Forall_app. Qed.

Lemma digits_free_of c0 s : digit_of c0 = None -> digits_only s -> free_of c0 s.
Proof.
  intros Hc0 Hs. eapply Forall_impl; [exact Hs|].
  intros c [d Hd] ->. congruence.
Qed.

Ltac free_of_text :=
  repeat first
    [ apply free_of_app
    | apply digits_free_of; [reflexivity | assumption]
    | (repeat (constructor; [discriminate|])); by constructor ].

Lemma prefix_app_same old rest : String.prefix old (old +:+ rest) = true.
Proof.
  induction old as [|c old IH]; [apply prefix_empty|].
  change (String c old +:+ rest) with (String c (old +:+ rest)).
  by rewrite prefix_same.
Qed.

Lemma ReplaceAll_from_skip t : forall rest old new,
  ReplaceAll_from (String.length t) (t +:+ rest) old new
  = ReplaceAll_from 0 rest old new.
Proof.
  induction t as [|c t IH]; intros rest old new; [done|].
  change (String c t +:+ rest) with (String c (t +:+ rest)). simpl. apply IH.
Qed.

(** An occurrence of [old] at the start is replaced. *)
Lemma ReplaceAll_from_here c0 old' rest new :
  ReplaceAll_from 0 (String c0 old' +:+ rest) (String c0 old') new
  = new +:+ ReplaceAll_from 0 rest (String c0 old') new.
Proof.
  change (String c0 old' +:+ rest) with (String c0 (old' +:+ rest)).
  cbn [ReplaceAll_from].
  change (String c0 (old' +:+ rest)) with (String c0 old' +:+ rest).
  rewrite prefix_app_same. f_equal.
  replace (String.length (String c0 old') - 1)%nat with (String.length old')
    by (simpl; lia).
  apply ReplaceAll_from_skip.
Qed.

(** A text without the first character of [old] is copied. *)
Lemma ReplaceAll_from_copy c0 old' new t : forall rest,
  free_of c0 t ->
  ReplaceAll_from 0 (t +:+ rest) (String c0 old') new
  = t +:+ ReplaceAll_from 0 rest (String c0 old') new.
Proof.
  induction t as [|d t IH]; intros rest Hfree; [done|].
  apply Forall_cons in Hfree as [Hd Hfree].
  change (String d t +:+ rest) with (String d (t +:+ rest)).
  cbn [ReplaceAll_from]. rewrite prefix_other by done.
  rewrite IH by done. done.
Qed.

Lemma ReplaceAll_none c0 old' new t :
  free_of c0 t -> ReplaceAll t (String c0 old') new = t.
Proof.
  intros Hfree. unfold ReplaceAll.
  rewrite <- (append_empty_r t) at 1.
  rewrite ReplaceAll_from_copy by done. simpl. apply append_empty_r.
Qed.

(** The prefix of a field of the file name is removed. *)
Lemma ReplaceAll_prefix c0 old' t :
  free_of c0 t -> ReplaceAll (String c0 old' +:+ t) (String c0 old') "" = t.
Proof.
  intros Hfree. unfold ReplaceAll. rewrite ReplaceAll_from_here.
  change ("" +:+ ReplaceAll_from 0 t (String c0 old') "")
    with (ReplaceAll t (String c0 old') "").
  by apply ReplaceAll_none.
Qed.

Lemma ReplaceAll_suffix c0 old' t :
  free_of c0 t -> ReplaceAll (t +:+ String c0 old') (String c0 old') "" = t.
Proof.
  intros Hfree. unfold ReplaceAll. rewrite ReplaceAll_from_copy by done.
  rewrite <- (append_empty_r (String c0 old')) at 1.
  rewrite ReplaceAll_from_here. simpl. apply append_empty_r.
Qed.

Lemma Split_three a b c :
  free_of "-"%char a -> free_of "-"%char b -> free_of "-"%char c ->
  Split (a +:+ "-" +:+ b +:+ "-" +:+ c) "-" = [a; b; c].
Proof.
  intros Ha Hb Hc. unfold Split.
  rewrite Split_from_piece by done. change ("" +:+ a) with a.
  change ("-" +:+ b +:+ "-" +:+ c) with (String "-"%char (b +:+ "-" +:+ c)).
  cbn [Split_from]. rewrite prefix_same, prefix_empty. f_equal.
  cbn [String.length Nat.sub].
  rewrite Split_from_piece by done. change ("" +:+ b) with b.
  change ("-" +:+ c) with (String "-"%char c).
  cbn [Split_from]. rewrite prefix_same, prefix_empty. f_equal.
  by apply (Split_piece "-"%char "").
Qed.

(** [Atoi] reads back the decimal text of an [int] that is not negative. *)
Lemma Atoi_pretty z : 0 <= z <= int_max -> Atoi (pretty z) = inl z.
Proof.
  intros [Hz Hmax]. destruct (pretty_nonneg z Hz) as (Hd & Hne & Hp).
  unfold Notation.parse_id in Hp. unfold Atoi.
  destruct (pretty z) as [|c t] eqn:E; [done|].
  apply Forall_cons in Hd as [Hc _].
  assert (c <> "-"%char) as Hdash by (by apply digit_not_dash).
  assert (c <> "+"%char) as Hplus by (intros ->; by destruct Hc).
  assert ((let '(negative, body) :=
             match String c t with
             | String "-"%char r => (true, r)
             | String "+"%char r => (false, r)
             | _ => (false, String c t)
             end in (negative, body)) = (false, String c t)) as Hsign.
  { destruct c as [[] [] [] [] [] [] [] []]; try done. }
  destruct c as [[] [] [] [] [] [] [] []]; try done;
    rewrite Hp;
    (destruct (Z.leb_spec int_min z); [|unfold int_min in *; lia]);
    (destruct (Z.leb_spec z int_max); [done | lia]).
Qed.

Lemma convert_pretty z : 0 <= z <= int_max -> convert (pretty z) = inl z.
Proof. intros H. unfold convert. by rewrite Atoi_pretty. Qed.

(** *** [filepath.Base] of a file in a directory *)

Lemma TrimRight_kept s c cutset :
  in_cutset c cutset = false ->
  TrimRight (s +:+ String c "") cutset = s +:+ String c "".
Proof.
  intros Hc. induction s as [|d s IH].
  - simpl. by rewrite Hc.
  - change (String d s +:+ String c "") with (String d (s +:+ String c "")).
    cbn [TrimRight]. rewrite IH. by destruct s.
Qed.

Lemma last_element_from_name name : forall cur,
  free_of "/"%char name -> Filepath.last_element_from cur name = cur +:+ name.
Proof.
  induction name as [|c name IH]; intros cur Hfree; simpl.
  - by rewrite append_empty_r.
  - apply Forall_cons in Hfree as [Hc Hfree].
    unfold Filepath.is_separator. destruct (Ascii.eqb_spec c "/"); [done|].
    rewrite IH by done. by rewrite append_assoc.
Qed.

Lemma last_element_from_dir dir name : forall cur,
  free_of "/"%char name ->
  Filepath.last_element_from cur (dir +:+ "/" +:+ name) = name.
Proof.
  induction dir as [|c dir IH]; intros cur Hfree.
  - change ("" +:+ "/" +:+ name) with (String "/"%char name). simpl.
    by rewrite last_element_from_name.
  - change (String c dir +:+ "/" +:+ name) with (String c (dir +:+ "/" +:+ name)).
    simpl. destruct (Filepath.is_separator c); by apply IH.
Qed.


Lemma Base_in_dir dir name c :
  free_of "/"%char (name +:+ String c "") -> c <> "/"%char ->
  Filepath.Base (dir +:+ "/" +:+ name +:+ String c "") = name +:+ String c "".
Proof.
  intros Hfree Hc. unfold Filepath.Base.
  assert (Strings.TrimRight (dir +:+ "/" +:+ name +:+ String c "") "/"
          = dir +:+ "/" +:+ name +:+ String c "") as ->.
  { assert (dir +:+ "/" +:+ name +:+ String c ""
            = (dir +:+ "/" +:+ name) +:+ String c "") as ->
      by (by rewrite !append_assoc).
    apply TrimRight_kept. unfold Strings.in_cutset. simpl.
    destruct (Ascii.eqb_spec c "/"); done. }
  rewrite last_element_from_dir by done.
  destruct (dir +:+ "/" +:+ name +:+ String c "") eqn:E.
  { by destruct dir. }
  destruct (name +:+ String c "") eqn:E'; [by destruct name|done].
Qed.

(** X13: [getInfoFromFilename] reads back the three numbers of a validation
    file name: for a process identifier, a rank and a call number that are
    not negative and fit an [int], the path
    [dir/validation_data-pid<id>-rank<rank>-call<call>.txt] gives
    [(id, rank, call)] and no error, whatever the directory. *)
Theorem getInfoFromFilename_round_trip (dir : string) (id rank call : Z) :
  0 <= id <= int_max -> 0 <= rank <= int_max -> 0 <= call <= int_max ->
  getInfoFromFilename
    (dir +:+ "/" +:+ "validation_data-pid" +:+ pretty id +:+ "-rank"
       +:+ pretty rank +:+ "-call" +:+ pretty call +:+ ".txt")
    = inl (id, rank, call).
Proof.
  intros Hid Hrank Hcall.
  destruct (pretty_nonneg id (proj1 Hid)) as (Di & _ & _).
  destruct (pretty_nonneg rank (proj1 Hrank)) as (Dr & _ & _).
  destruct (pretty_nonneg call (proj1 Hcall)) as (Dc & _ & _).
  unfold getInfoFromFilename.
  set (I := pretty id) in *. set (R := pretty rank) in *.
  set (C := pretty call) in *.
  assert ("validation_data-pid" +:+ I +:+ "-rank" +:+ R +:+ "-call" +:+ C
            +:+ ".txt"
          = ("validation_data-pid" +:+ I +:+ "-rank" +:+ R +:+ "-call" +:+ C
               +:+ ".tx") +:+ String "t" "") as ->.
  { by rewrite !append_assoc. }
  rewrite Base_in_dir; [|free_of_text|done].
  assert (("validation_data-pid" +:+ I +:+ "-rank" +:+ R +:+ "-call" +:+ C
             +:+ ".tx") +:+ String "t" ""
          = "validation_data-" +:+
            (("pid" +:+ I +:+ "-rank" +:+ R +:+ "-call" +:+ C) +:+ ".txt"))
    as ->.
  { by rewrite !append_assoc. }
  rewrite (ReplaceAll_prefix "v" "alidation_data-") by free_of_text.
  rewrite (ReplaceAll_suffix "." "txt") by free_of_text.
  assert ("pid" +:+ I +:+ "-rank" +:+ R +:+ "-call" +:+ C
          = ("pid" +:+ I) +:+ "-" +:+ ("rank" +:+ R) +:+ "-" +:+ ("call" +:+ C))
    as ->.
  { by rewrite !append_assoc. }
  rewrite Split_three by free_of_text.
  rewrite (ReplaceAll_prefix "p" "id") by free_of_text.
  rewrite (ReplaceAll_prefix "r" "ank") by free_of_text.
  rewrite (ReplaceAll_prefix "c" "all") by free_of_text.
  unfold I, R, C. by rewrite !convert_pretty.
Qed.

Lemma getInfoFromFilename_round_trip_witness :
  getInfoFromFilename "out/validation_data-pid42-rank3-call10.txt"
    = inl (42, 3, 10).
Proof.
  apply (getInfoFromFilename_round_trip "out" 42 3 10); unfold int_max; lia.
Defined.

End FileNames.

Section RescalingInvariants.
Import Scale.

Variable FromString : string -> Z * Z.
Variable ToString : Z -> Z -> string.
Variable IsValidScale : Z -> Z -> bool.
Variables DOWN UP : Z.

Ltac outer_test H :=
  lazymatch goal with
  | |- (if ?c then _ else _) = _ -> _ => destruct c eqn:H
  end.

Lemma mapFloat64sScaleDown_keys unitType unitScale (values : gmap Z float) :
  dom (mapFloat64sScaleDown IsValidScale DOWN UP unitType unitScale values).2
  = dom values.
Proof.
  unfold mapFloat64sScaleDown, mapFloat64sCompute.
  destruct (unitScale =? -1); [done|].
  destruct (IsValidScale _ _); [|done]. simpl.
  rewrite Z.eqb_refl. apply leibniz_equiv, dom_fmap.
Qed.

Lemma mapFloat64sScaleUp_keys unitType unitScale (values : gmap Z float) :
  dom (mapFloat64sScaleUp IsValidScale DOWN UP unitType unitScale values).2
  = dom values.
Proof.
  unfold mapFloat64sScaleUp, mapFloat64sCompute.
  destruct (unitScale =? -1); [done|].
  destruct (IsValidScale _ _); [|done]. simpl.
  destruct (UP =? DOWN); [|rewrite Z.eqb_refl]; apply leibniz_equiv, dom_fmap.
Qed.

(** X14: rescaling keeps the keys.  Whenever [MapFloat64s] returns, the map
    it returns has exactly the keys of the map it was given, whatever
    package [unit] answers and however many times the values were scaled. *)
Theorem MapFloat64s_keeps_keys (fuel : nat) :
  forall (unitID : string) (values : gmap Z float) newUnitID newValues,
    MapFloat64s FromString ToString IsValidScale DOWN UP fuel unitID values
      = Some (newUnitID, newValues) ->
    dom newValues = dom values.
Proof.
  induction fuel as [|fuel IH]; intros unitID values newUnitID newValues; [done|].
  cbn [MapFloat64s].
  outer_test Hdown.
  - destruct (FromString unitID) as [unitType unitScale].
    pose proof (mapFloat64sScaleDown_keys unitType unitScale values) as Hk.
    destruct (mapFloat64sScaleDown _ _ _ _ _ _) as [[t sc] scaled].
    intros H. apply IH in H. simpl in Hk. congruence.
  - outer_test Hup.
    + destruct (FromString unitID) as [unitType unitScale].
      pose proof (mapFloat64sScaleUp_keys unitType unitScale values) as Hk.
      destruct (mapFloat64sScaleUp _ _ _ _ _ _) as [[t sc] scaled].
      intros H. apply IH in H. simpl in Hk. congruence.
    + by intros [= _ <-].
Qed.

(** X15: what [MapFloat64s] returns needs no further scaling: called again
    on its own result, with any depth of calls allowed, it returns that
    result unchanged at once. *)
Theorem MapFloat64s_result_is_stable (fuel : nat) :
  forall (unitID : string) (values : gmap Z float) newUnitID newValues,
    MapFloat64s FromString ToString IsValidScale DOWN UP fuel unitID values
      = Some (newUnitID, newValues) ->
    forall fuel',
      MapFloat64s FromString ToString IsValidScale DOWN UP (S fuel')
        newUnitID newValues
      = Some (newUnitID, newValues).
Proof.
  induction fuel as [|fuel IH]; intros unitID values newUnitID newValues; [done|].
  cbn [MapFloat64s].
  outer_test Hdown.
  - destruct (FromString unitID) as [unitType unitScale].
    destruct (mapFloat64sScaleDown _ _ _ _ _ _) as [[t sc] scaled].
    apply IH.
  - outer_test Hup.
    + destruct (FromString unitID) as [unitType unitScale].
      destruct (mapFloat64sScaleUp _ _ _ _ _ _) as [[t sc] scaled].
      apply IH.
    + intros [= <- <-] fuel'. cbn [MapFloat64s]. by rewrite Hdown, Hup.
Qed.

End RescalingInvariants.

Lemma MapFloat64s_keeps_keys_witness :
  Scale.MapFloat64s (fun _ => (0, 1)) (fun _ _ => "KB"%string) (fun _ _ => true) 0 1
    2 "B" {[ 0 := 2500%float; 1 := 5000%float ]}
  = Some ("KB"%string, {[ 0 := 2.5%float; 1 := 5%float ]}) /\
  dom ({[ 0 := 2.5%float; 1 := 5%float ]} : gmap Z float)
  = dom ({[ 0 := 2500%float; 1 := 5000%float ]} : gmap Z float).
Proof.
  split; [vm_compute; reflexivity|].
  apply (MapFloat64s_keeps_keys (fun _ => (0, 1)) (fun _ _ => "KB"%string)
           (fun _ _ => true) 0 1 2 "B"
           {[ 0 := 2500%float; 1 := 5000%float ]} "KB"%string
           {[ 0 := 2.5%float; 1 := 5%float ]}).
  vm_compute. reflexivity.
Defined.

Lemma MapFloat64s_result_is_stable_witness :
  Scale.MapFloat64s (fun _ => (0, 1)) (fun _ _ => "KB"%string) (fun _ _ => true) 0 1
    2 "B" {[ 0 := 2500%float; 1 := 5000%float ]}
  = Some ("KB"%string, {[ 0 := 2.5%float; 1 := 5%float ]}) /\
  Scale.MapFloat64s (fun _ => (0, 1)) (fun _ _ => "KB"%string) (fun _ _ => true) 0 1
    7 "KB" {[ 0 := 2.5%float; 1 := 5%float ]}
  = Some ("KB"%string, {[ 0 := 2.5%float; 1 := 5%float ]}).
Proof.
  split; [vm_compute; reflexivity|].
  apply (MapFloat64s_result_is_stable (fun _ => (0, 1)) (fun _ _ => "KB"%string)
           (fun _ _ => true) 0 1 2 "B" {[ 0 := 2500%float; 1 := 5000%float ]}
           "KB"%string {[ 0 := 2.5%float; 1 := 5%float ]}).
  vm_compute. reflexivity.
Defined.

Section RankListsMore.
Import Logger.

(** The inner loop on a block [pre ++ x :: ys] that ends with [ys], entered
    at the cell of [x], when no cell of [ys] is 0: the loop runs to the end
    of the block and reads the cell behind it. *)
Lemma range_end_past_block ys :
  forall pre x fuel,
    Forall (fun y => y <> 0) ys ->
    (length ys <= fuel)%nat ->
    range_end fuel (pre ++ x :: ys) (Z.of_nat (length pre)) = Undefined.
Proof.
  induction ys as [|y ys IH]; intros pre x fuel Hnz Hfuel.
  - assert ((pre ++ [x]) !! Z.to_nat (Z.of_nat (length pre) + 1) = None) as Hout.
    { apply lookup_ge_None. rewrite length_app. simpl. lia. }
    destruct fuel; cbn [range_end]; by rewrite Hout.
  - apply Forall_cons in Hnz as [Hy Hnz].
    destruct fuel as [|fuel]; [simpl in Hfuel; lia|]. simpl in Hfuel.
    assert ((pre ++ x :: y :: ys) !! Z.to_nat (Z.of_nat (length pre) + 1)
            = Some y) as Hget.
    { replace (Z.to_nat (Z.of_nat (length pre) + 1)) with (S (length pre)) by lia.
      rewrite lookup_app_r by lia.
      by replace (S (length pre) - length pre)%nat with 1%nat by lia. }
    cbn [range_end]. rewrite Hget, Nat2Z.id.
    destruct (Z.eqb_spec y 0) as [|_]; [done|].
    replace (<[length pre := y]> (pre ++ x :: y :: ys))
      with ((pre ++ [y]) ++ y :: ys).
    2:{ rewrite <- app_assoc. simpl.
        replace (<[length pre := y]> (pre ++ x :: y :: ys))
          with (<[(length pre + 0)%nat := y]> (pre ++ x :: y :: ys))
          by (f_equal; lia).
        by rewrite insert_app_r. }
    replace (Z.of_nat (length pre) + 1) with (Z.of_nat (length (pre ++ [y])))
      by (rewrite length_app; simpl; lia).
    apply IH; [done | lia].
Qed.

(** X16: [compress_int_array] needs a cell that is 0 behind the first one.
    On a block whose cells after the first are all different from 0, and for
    a positive [size], the inner loop reads the cell behind the end of the
    block: the behaviour is undefined, whatever the buffer size and the
    initial value of the pointer. *)
Theorem compress_int_array_needs_zero (MAX_STRING_LEN : nat)
    (garbage : option string) (x : Z) (ys : list Z) (size : Z) :
  Forall (fun y => y <> 0) ys ->
  0 < size ->
  compress_int_array MAX_STRING_LEN garbage (x :: ys) size = Undefined.
Proof.
  intros Hnz Hsize. unfold compress_int_array.
  change (length (x :: ys)) with (S (length ys)). cbn [compress_loop].
  destruct (Z.leb_spec size 0) as [Hle|_]; [lia|].
  assert (range_end (length (x :: ys)) (x :: ys) 0 = Undefined) as ->; [|done].
  apply (range_end_past_block ys [] x); [done | simpl; lia].
Qed.

Lemma compress_int_array_needs_zero_witness :
  compress_int_array 64 None [1; 2; 3] 3 = Undefined.
Proof.
  apply (compress_int_array_needs_zero 64 None 1 [2; 3] 3); [|lia].
  repeat constructor; lia.
Defined.

(** X17: the string [compress_int_array] returns tells how many ranks there
    are, not which.  On [k + 1] ranks of which all but the first are
    different from 0, followed in memory by a cell that is 0, with a pointer
    that starts as [NULL] and a buffer that holds the text, the result is
    "0" for one rank and "0-k" otherwise, and the block is overwritten: the
    ranks are moved one cell to the left and the first rank is lost. *)
Theorem compress_int_array_counts_ranks (MAX_STRING_LEN : nat) (x : Z)
    (ys post : list Z) :
  Forall (fun y => y <> 0) ys ->
  let text := match ys with
              | [] => "0"%string
              | _ => "0-" +:+ fmt_d (Z.of_nat (length ys))
              end in
  (String.length text < MAX_STRING_LEN)%nat ->
  compress_int_array MAX_STRING_LEN None (x :: ys ++ 0 :: post)
    (Z.of_nat (S (length ys)))
  = Done (ys ++ 0 :: 0 :: post, Some text).
Proof. apply compress_int_array_by_size. Qed.

Lemma compress_int_array_counts_ranks_witness :
  compress_int_array 64 None [4; 5; 6; 0] 3
  = Done ([5; 6; 0; 0], Some "0-2"%string).
Proof.
  apply (compress_int_array_counts_ranks 64 4 [5; 6] []).
  - repeat constructor; lia.
  - vm_compute. lia.
Defined.

End RankListsMore.

Section CallRankData.
Import Strings Strconv Profiler.

Abbreviation counters_text ending counters :=
  (foldr (fun (n : Z) rest => pretty n +:+ " " +:+ rest) ending counters).

Lemma TrimRight_first_kept c s cutset :
  in_cutset c cutset = false ->
  TrimRight (String c s) cutset = String c (TrimRight s cutset).
Proof. intros Hc. cbn [TrimRight]. rewrite Hc. by destruct (TrimRight s cutset). Qed.

Lemma TrimRight_after c s cutset t :
  in_cutset c cutset = false ->
  TrimRight (t +:+ String c s) cutset = t +:+ String c (TrimRight s cutset).
Proof.
  intros Hc. induction t as [|d t IH]; [by apply TrimRight_first_kept|].
  change (String d t +:+ String c s) with (String d (t +:+ String c s)).
  cbn [TrimRight]. rewrite IH. by destruct t.
Qed.

(** [strings.TrimRight(line, "\n")] removes the line feed that ends a line
    of counters. *)
Lemma TrimRight_counters counters :
  TrimRight (counters_text nl counters) nl = counters_text "" counters.
Proof.
  induction counters as [|n counters IH]; [done|]. cbn [foldr].
  change (" " +:+ counters_text nl counters)
    with (String " "%char (counters_text nl counters)).
  rewrite TrimRight_after by done. by rewrite IH.
Qed.

(** [strings.Split(line, " ")] gives the numbers, and an empty token for
    the space that follows the last one. *)
Lemma Split_counters counters :
  Forall (fun n => 0 <= n) counters ->
  Split (counters_text "" counters) " " = map pretty counters ++ [""].
Proof.
  unfold Split. induction counters as [|n counters IH]; intros Hpos; [done|].
  apply Forall_cons in Hpos as [Hn Hpos]. cbn [foldr map app].
  destruct (pretty_nonneg n Hn) as (Hd & _ & _).
  rewrite Split_from_piece
    by (eapply Forall_impl; [exact Hd|]; by intros c [d Hc] ->).
  change ("" +:+ pretty n) with (pretty n).
  change (" " +:+ counters_text "" counters)
    with (String " "%char (counters_text "" counters)).
  cbn [Split_from]. rewrite prefix_same, prefix_empty. f_equal.
  by apply IH.
Qed.

Lemma sum_tokens_counters counters :
  forall sum,
    0 <= sum ->
    Forall (fun n => 0 <= n) counters ->
    sum + foldr Z.add 0 counters <= int_max ->
    sum_tokens (map pretty counters ++ [""]) sum
    = inl (sum + foldr Z.add 0 counters).
Proof.
  induction counters as [|n counters IH]; intros sum Hsum Hpos Hmax.
  - simpl. f_equal. lia.
  - apply Forall_cons in Hpos as [Hn Hpos]. cbn [foldr] in Hmax.
    assert (0 <= foldr Z.add 0 counters) as Hrest.
    { clear -Hpos. induction Hpos; simpl; lia. }
    cbn [map app sum_tokens foldr].
    destruct (pretty_nonneg n Hn) as (_ & Hne & _).
    destruct (String.eqb_spec (pretty n) "") as [|_]; [done|].
    rewrite Atoi_pretty by lia.
    rewrite wrap_small by (unfold in_int, int_min, int_max in *; lia).
    rewrite IH by (done || lia). f_equal. lia.
Qed.

Lemma sum_line counters :
  Forall (fun n => 0 <= n) counters ->
  foldr Z.add 0 counters <= int_max ->
  sum_tokens (Split (TrimRight (Logger.print_counters counters) nl) " ") 0
  = inl (foldr Z.add 0 counters).
Proof.
  intros Hpos Hmax. unfold Logger.print_counters, Logger.fmt_d.
  rewrite TrimRight_counters, Split_counters by done.
  by rewrite sum_tokens_counters.
Qed.

(** X18: [GetCallRankData] gives the bytes sent and received.  When the
    reader returns the counters as [_log_data] printed them (each counter
    followed by a space, then a line feed), the counters are not negative,
    and their sums and the sums times the datatype sizes fit an [int], the
    result is the sum of the send counters times the send datatype size and
    the sum of the receive counters times the receive datatype size, with no
    error. *)
Theorem GetCallRankData_bytes
    (ReadCallRankCounters : list string -> Z -> Z -> (string * Z) + string)
    (sendCountersFile recvCountersFile : string) (callNum rank : Z)
    (sendCounters recvCounters : list Z) (sendDatatypeSize recvDatatypeSize : Z) :
  ReadCallRankCounters [sendCountersFile] rank callNum
    = inl (Logger.print_counters sendCounters, sendDatatypeSize) ->
  ReadCallRankCounters [recvCountersFile] rank callNum
    = inl (Logger.print_counters recvCounters, recvDatatypeSize) ->
  Forall (fun n => 0 <= n) sendCounters ->
  Forall (fun n => 0 <= n) recvCounters ->
  foldr Z.add 0 sendCounters <= int_max ->
  foldr Z.add 0 recvCounters <= int_max ->
  in_int (foldr Z.add 0 sendCounters * sendDatatypeSize) ->
  in_int (foldr Z.add 0 recvCounters * recvDatatypeSize) ->
  GetCallRankData ReadCallRankCounters sendCountersFile recvCountersFile
    callNum rank
  = inl (foldr Z.add 0 sendCounters * sendDatatypeSize,
         foldr Z.add 0 recvCounters * recvDatatypeSize).
Proof.
  intros Hsend Hrecv Hs Hr Hsmax Hrmax Hsbytes Hrbytes.
  unfold GetCallRankData. rewrite Hsend, Hrecv.
  rewrite !sum_line by done. by rewrite !wrap_small by done.
Qed.

Lemma GetCallRankData_bytes_witness :
  GetCallRankData
    (fun files _ _ =>
       if bool_decide (files = ["send-counters.txt"%string])
       then inl (Logger.print_counters [10; 0; 30], 8)
       else inl (Logger.print_counters [1; 2; 3], 4))
    "send-counters.txt" "recv-counters.txt" 0 1
  = inl (320, 24).
Proof.
  apply (GetCallRankData_bytes _ "send-counters.txt" "recv-counters.txt" 0 1
           [10; 0; 30] [1; 2; 3] 8 4);
    try reflexivity;
    try (repeat constructor; lia);
    try (unfold in_int, int_min, int_max; simpl; lia).
Defined.

End CallRankData.

Section CaptureList.
Import Logger Capture.

Abbreviation cells sz := (Nat.mul (Z.to_nat sz) (Z.to_nat sz)).

(** The test of the [while] loop of [insert_sendrecv_data] on the first
    cells of the blocks. *)
Abbreviation same_call sbuf sz st rt node :=
  (bool_decide (take (cells sz) (send_data node) = take (cells sz) sbuf)
   && (Capture.size node =? sz) && (Capture.recvtype_size node =? rt)
   && (Capture.sendtype_size node =? st)).

Abbreviation counted_again node :=
  (mkNode (Capture.size node) (count node + 1) (Capture.sendtype_size node)
     (Capture.recvtype_size node) (send_data node) (recv_data node)).

Lemma cells_square sz : 0 <= sz -> Z.of_nat (cells sz) = sz * sz.
Proof. intros H. rewrite Nat2Z.inj_mul, Z2Nat.id by done. done. Qed.

Lemma same_data_from_spec todo :
  forall dest src num,
    0 <= num -> num + Z.of_nat todo <= INT_MAX ->
    (Z.to_nat num + todo <= length dest)%nat ->
    (Z.to_nat num + todo <= length src)%nat ->
    same_data_from todo dest src num
    = Done (bool_decide (take todo (drop (Z.to_nat num) dest)
                         = take todo (drop (Z.to_nat num) src))).
Proof.
  induction todo as [|todo IH]; intros dest src num Hnum Hmax Hd Hs.
  - done.
  - cbn [same_data_from].
    destruct (lookup_lt_is_Some_2 dest (Z.to_nat num) ltac:(lia)) as [d Ed].
    destruct (lookup_lt_is_Some_2 src (Z.to_nat num) ltac:(lia)) as [s Es].
    rewrite Ed, Es.
    rewrite (drop_S _ _ _ Ed), (drop_S _ _ _ Es). cbn [take].
    destruct (Z.eqb_spec d s) as [->|Hne]; simpl.
    + destruct (Z.eqb_spec num INT_MAX) as [|_]; [lia|].
      rewrite IH by lia.
      replace (Z.to_nat (num + 1)) with (S (Z.to_nat num)) by lia.
      f_equal. apply bool_decide_ext. split; [congruence | by intros [= ->]].
    + f_equal. symmetry. apply bool_decide_eq_false_2. by intros [= ?].
Qed.

Lemma same_data_spec dest src sz :
  0 <= sz -> sz * sz <= INT_MAX ->
  sz * sz <= Z.of_nat (length dest) -> sz * sz <= Z.of_nat (length src) ->
  same_data dest src sz
  = Done (bool_decide (take (cells sz) dest = take (cells sz) src)).
Proof.
  intros Hsz Hmax Hd Hs. unfold same_data.
  pose proof (cells_square sz Hsz) as Hc.
  rewrite same_data_from_spec by lia. done.
Qed.

Lemma copy_data_spec todo :
  forall sbuf rbuf num,
    (num + todo <= length sbuf)%nat -> (num + todo <= length rbuf)%nat ->
    copy_data todo sbuf rbuf num
    = Done (take todo (drop num sbuf), take todo (drop num rbuf)).
Proof.
  induction todo as [|todo IH]; intros sbuf rbuf num Hs Hr; [done|].
  cbn [copy_data].
  destruct (lookup_lt_is_Some_2 sbuf num ltac:(lia)) as [s Es].
  destruct (lookup_lt_is_Some_2 rbuf num ltac:(lia)) as [r Er].
  rewrite Es, Er, IH by lia. simpl.
  by rewrite (drop_S _ _ _ Es), (drop_S _ _ _ Er).
Qed.

(** What the [while] loop does on a list whose blocks are large enough:
    the first node that passes the test is counted again, and [None] is
    for a list without such a node. *)
Lemma find_and_count_spec sbuf sz st rt :
  0 <= sz -> sz * sz <= INT_MAX -> sz * sz <= Z.of_nat (length sbuf) ->
  forall nodes,
    Forall (fun node => sz * sz <= Z.of_nat (length (send_data node))
                        /\ count node < INT_MAX) nodes ->
    (Forall (fun node => same_call sbuf sz st rt node = false) nodes /\
     find_and_count nodes sbuf sz st rt = Done None) \/
    (exists pre node post,
       nodes = pre ++ node :: post /\
       Forall (fun node => same_call sbuf sz st rt node = false) pre /\
       same_call sbuf sz st rt node = true /\
       find_and_count nodes sbuf sz st rt
       = Done (Some (pre ++ counted_again node :: post))).
Proof.
  intros Hsz Hmax Hs. induction nodes as [|temp next IH]; intros Hok.
  { left. by split. }
  apply Forall_cons in Hok as [[Hlen Hcount] Hok].
  cbn [find_and_count]. rewrite same_data_spec by done. cbn [and_then].
  destruct (same_call sbuf sz st rt temp) eqn:Etest.
  - right. exists [], temp, next. split; [done|]. split; [done|]. split; [done|].
    apply andb_prop in Etest as [Etest ->]. apply andb_prop in Etest as [Etest ->].
    apply andb_prop in Etest as [-> ->]. simpl.
    by destruct (Z.eqb_spec (count temp) INT_MAX) as [|_]; [lia|].
  - assert (negb (bool_decide (take (cells sz) (send_data temp)
                               = take (cells sz) sbuf))
            || negb (Capture.size temp =? sz)
            || negb (Capture.recvtype_size temp =? rt)
            || negb (Capture.sendtype_size temp =? st) = true) as ->.
    { rewrite <- !negb_andb. by rewrite Etest. }
    destruct (IH Hok) as [[Hnone ->]|(pre & node & post & -> & Hpre & Hnode & ->)].
    + left. split; [by constructor|done].
    + right. exists (temp :: pre), node, post.
      split; [done|]. split; [by constructor|]. by split.
Qed.

Lemma calls_counted_app l1 l2 :
  calls_counted (l1 ++ l2) = calls_counted l1 + calls_counted l2.
Proof.
  unfold calls_counted. induction l1 as [|x l1 IH]; simpl; [done|]. lia.
Qed.

(** X19: every call is counted once.  On a list whose blocks hold at least
    [size * size] cells and whose counts are below [INT_MAX], with buffers
    of at least [size * size] cells, [insert_sendrecv_data] returns, the
    sum of the counts of the list grows by exactly 1, the list has the same
    nodes in the same order and at most one more at its end, and no stored
    size or data changes. *)
Theorem insert_sendrecv_data_counts_call (sbuf rbuf : list Z)
    (size sendtype_size recvtype_size : Z) (head : list avSRCountNode) :
  0 <= size -> size * size <= INT_MAX ->
  size * size <= Z.of_nat (length sbuf) ->
  size * size <= Z.of_nat (length rbuf) ->
  Forall (fun node => size * size <= Z.of_nat (length (send_data node))
                      /\ count node < INT_MAX) head ->
  exists head',
    insert_sendrecv_data sbuf rbuf size sendtype_size recvtype_size head
      = Done head' /\
    calls_counted head' = calls_counted head + 1 /\
    (length head' <= S (length head))%nat /\
    map (fun node => (Capture.size node, Capture.sendtype_size node,
                      Capture.recvtype_size node, send_data node,
                      recv_data node)) head
    `prefix_of`
    map (fun node => (Capture.size node, Capture.sendtype_size node,
                      Capture.recvtype_size node, send_data node,
                      recv_data node)) head'.
Proof.
  intros Hsz Hmax Hs Hr Hok. unfold insert_sendrecv_data.
  pose proof (cells_square size Hsz) as Hc.
  destruct (find_and_count_spec sbuf size sendtype_size recvtype_size
              Hsz Hmax Hs head Hok)
    as [[_ ->]|(pre & node & post & -> & _ & _ & ->)]; cbn [and_then].
  - destruct (Z.ltb_spec INT_MAX (size * size)) as [|_]; [lia|].
    rewrite copy_data_spec by lia. cbn [and_then].
    eexists. split; [done|]. rewrite calls_counted_app, length_app, map_app.
    split; [unfold calls_counted; simpl; lia|]. split; [simpl; lia|].
    by apply prefix_app_r.
  - eexists. split; [done|]. rewrite !calls_counted_app, !length_app, !map_app.
    split; [unfold calls_counted; simpl; lia|]. split; [simpl; lia|]. done.
Qed.

(** X20: the receive counts are not compared.  When a node of the list has
    the size, the datatype sizes and the send counts of the call, the call
    is counted on a stored node whatever its receive counts are: the result
    does not depend on [rbuf], no node is added and the receive data stored
    stay as they were. *)
Theorem insert_sendrecv_data_ignores_recv (sbuf rbuf rbuf' : list Z)
    (size sendtype_size recvtype_size : Z) (head : list avSRCountNode)
    (known : avSRCountNode) :
  0 <= size -> size * size <= INT_MAX ->
  size * size <= Z.of_nat (length sbuf) ->
  Forall (fun node => size * size <= Z.of_nat (length (send_data node))
                      /\ count node < INT_MAX) head ->
  known ∈ head ->
  Capture.size known = size ->
  Capture.sendtype_size known = sendtype_size ->
  Capture.recvtype_size known = recvtype_size ->
  take (Z.to_nat (size * size)) (send_data known)
    = take (Z.to_nat (size * size)) sbuf ->
  exists head',
    insert_sendrecv_data sbuf rbuf size sendtype_size recvtype_size head
      = Done head' /\
    insert_sendrecv_data sbuf rbuf' size sendtype_size recvtype_size head
      = Done head' /\
    length head' = length head /\
    map recv_data head' = map recv_data head.
Proof.
  intros Hsz Hmax Hs Hok Hin Hsize Hst Hrt Hsend. unfold insert_sendrecv_data.
  pose proof (cells_square size Hsz) as Hc.
  assert (same_call sbuf size sendtype_size recvtype_size known = true) as Hknown.
  { rewrite Hsize, Hst, Hrt, !Z.eqb_refl, !andb_true_r.
    apply bool_decide_eq_true_2.
    by replace (cells size) with (Z.to_nat (size * size)) by lia. }
  destruct (find_and_count_spec sbuf size sendtype_size recvtype_size
              Hsz Hmax Hs head Hok)
    as [[Hnone _]|(pre & node & post & -> & _ & _ & ->)]; cbn [and_then].
  - rewrite Forall_forall in Hnone. specialize (Hnone known Hin). congruence.
  - eexists. split; [done|]. split; [done|].
    rewrite !length_app, !map_app. done.
Qed.

Lemma same_data_from_short d :
  forall pre more todo,
    (length d < todo)%nat ->
    same_data_from todo (pre ++ d) (pre ++ d ++ more) (Z.of_nat (length pre))
    = Undefined.
Proof.
  induction d as [|x d IH]; intros pre more todo Htodo.
  - destruct todo as [|todo]; [simpl in Htodo; lia|]. cbn [same_data_from].
    rewrite Nat2Z.id, app_nil_r.
    by rewrite (lookup_ge_None_2 pre (length pre)) by lia.
  - destruct todo as [|todo]; [simpl in Htodo; lia|]. simpl in Htodo.
    cbn [same_data_from]. rewrite Nat2Z.id.
    rewrite !lookup_app_r, Nat.sub_diag by lia. simpl.
    rewrite Z.eqb_refl. simpl.
    destruct (Z.of_nat (length pre) =? INT_MAX); [done|].
    replace (Z.of_nat (length pre) + 1) with (Z.of_nat (length (pre ++ [x])))
      by (rewrite length_app; simpl; lia).
    replace (pre ++ x :: d) with ((pre ++ [x]) ++ d) by (by rewrite <- app_assoc).
    replace (pre ++ x :: d ++ more) with ((pre ++ [x]) ++ d ++ more)
      by (by rewrite <- app_assoc).
    apply IH. lia.
Qed.

(** X21: the data are compared before the sizes.  When the block of send
    counts of the first node of the list holds fewer than [size * size]
    cells (it was stored for a smaller communicator) and its cells are the
    first send counts of the call, [same_data] reads behind the end of that
    block: the behaviour of [insert_sendrecv_data] is undefined. *)
Theorem insert_sendrecv_data_reads_past_node (sbuf rbuf more : list Z)
    (size sendtype_size recvtype_size : Z) (temp : avSRCountNode)
    (next : list avSRCountNode) :
  sbuf = send_data temp ++ more ->
  Z.of_nat (length (send_data temp)) < size * size ->
  0 <= size ->
  insert_sendrecv_data sbuf rbuf size sendtype_size recvtype_size (temp :: next)
    = Undefined.
Proof.
  intros -> Hshort Hsz. unfold insert_sendrecv_data. cbn [find_and_count].
  pose proof (cells_square size Hsz) as Hc.
  unfold same_data.
  rewrite (same_data_from_short (send_data temp) [] more) by (simpl; lia).
  done.
Qed.

End CaptureList.

Lemma insert_sendrecv_data_counts_call_witness :
  exists head',
    Capture.insert_sendrecv_data [1; 2; 3; 4] [5; 6; 7; 8] 2 4 4
      [Capture.mkNode 2 3 4 4 [1; 2; 3; 9] [0; 0; 0; 0]]
      = Logger.Done head' /\
    Capture.calls_counted head' = 4.
Proof.
  destruct (insert_sendrecv_data_counts_call [1; 2; 3; 4] [5; 6; 7; 8] 2 4 4
              [Capture.mkNode 2 3 4 4 [1; 2; 3; 9] [0; 0; 0; 0]])
    as (head' & Hrun & Hsum & _).
  - lia.
  - unfold Capture.INT_MAX. lia.
  - simpl. lia.
  - simpl. lia.
  - repeat constructor; simpl; unfold Capture.INT_MAX; lia.
  - exists head'. split; [exact Hrun | exact Hsum].
Defined.

Lemma insert_sendrecv_data_ignores_recv_witness :
  exists head',
    Capture.insert_sendrecv_data [1; 2; 3; 4] [5; 6; 7; 8] 2 4 4
      [Capture.mkNode 2 3 4 4 [1; 2; 3; 4] [0; 0; 0; 0]]
      = Logger.Done head' /\
    map Capture.recv_data head' = [[0; 0; 0; 0]].
Proof.
  destruct (insert_sendrecv_data_ignores_recv [1; 2; 3; 4] [5; 6; 7; 8] [] 2 4 4
              [Capture.mkNode 2 3 4 4 [1; 2; 3; 4] [0; 0; 0; 0]]
              (Capture.mkNode 2 3 4 4 [1; 2; 3; 4] [0; 0; 0; 0]))
    as (head' & Hrun & _ & _ & Hrecv).
  - lia.
  - unfold Capture.INT_MAX. lia.
  - simpl. lia.
  - repeat constructor; simpl; unfold Capture.INT_MAX; lia.
  - apply list_elem_of_singleton. reflexivity.
  - reflexivity.
  - reflexivity.
  - reflexivity.
  - reflexivity.
  - exists head'. split; [exact Hrun | exact Hrecv].
Defined.

Lemma insert_sendrecv_data_reads_past_node_witness :
  Capture.insert_sendrecv_data [7; 0; 0; 0] [0; 0; 0; 0] 2 4 4
    [Capture.mkNode 1 1 4 4 [7] [0]]
  = Logger.Undefined.
Proof.
  apply (insert_sendrecv_data_reads_past_node [7; 0; 0; 0] [0; 0; 0; 0]
           [0; 0; 0] 2 4 4 (Capture.mkNode 1 1 4 4 [7] [0]) []);
    [reflexivity | simpl; lia | lia].
Defined.
